(** * Targeted sentiment attribution: lexicon scorer and attribution cascade

    A shallow embedding of [src/sentiment.py] (text normaliser, [Lexicon],
    [TargetedLexiconAnalyzer]) and of the stance detector and attribution
    cascade of [src/sentiment_report.py].

    Modelling conventions.
    - A Python [str] is a list of Unicode code points ([pystr]).
    - The services of the Python runtime that depend on the Unicode
      character database ([unicodedata.normalize], [unicodedata.combining],
      [str.lower], the whitespace of [str.split], the class [\w] of [re])
      are the fields of the class [UnicodeData]; general statements hold
      for every instance, literal scenarios are evaluated with the
      instance [latin1], which tabulates the database for U+0000..U+00FF.
    - A Python [float] has two models.  [Num] and the modules built on it
      take a float as an exact rational ([Qc]), with [round(x, n)] rounding
      the exact value half-to-even at [n] decimals: they carry the
      statements on the control flow, on order and on ranges.  [Binary64]
      takes a float as the IEEE 754 double it is ([PrimFloat.float]), with
      the correctly rounded operations of the machine and the [round] of
      [float.__round__]: it carries the statements on the value of a
      computed number (the label against the thresholds, the confidence of
      the alignment rules).
    - A Python [int] is a [Z]; a [dict] is a [gmap]. *)

From Stdlib Require Import ZArith NArith QArith Qcanon Qcabs Qround Qabs Lia Lqa.
From Stdlib Require Import Floats.
From Stdlib Require Import Strings.String Strings.Ascii.
From stdpp Require Import base numbers list option gmap.

Local Open Scope Z_scope.

#[local] Set Warnings "-inexact-float".

(** ** Python strings *)

Module Text.

(** A Python string: its code points, in order. *)
Definition pystr : Type := list N.

(** UTF-8 decoding of a source literal (sequences of one to four bytes). *)
Fixpoint utf8_decode (bs : list N) : pystr :=
  match bs with
  | [] => []
  | b :: rest =>
      if (b <? 128)%N then b :: utf8_decode rest
      else if (b <? 224)%N then
        match rest with
        | b1 :: r => ((b - 192) * 64 + (b1 - 128))%N :: utf8_decode r
        | _ => [b]
        end
      else if (b <? 240)%N then
        match rest with
        | b1 :: b2 :: r =>
            ((b - 224) * 4096 + (b1 - 128) * 64 + (b2 - 128))%N :: utf8_decode r
        | _ => [b]
        end
      else
        match rest with
        | b1 :: b2 :: b3 :: r =>
            ((b - 240) * 262144 + (b1 - 128) * 4096 + (b2 - 128) * 64
             + (b3 - 128))%N :: utf8_decode r
        | _ => [b]
        end
  end.

Definition py (s : string) : pystr :=
  utf8_decode (map N_of_ascii (list_ascii_of_string s)).

(** The part of the runtime that reads the Unicode character database. *)
Class UnicodeData := {
  (** [unicodedata.normalize("NFKD", s)] *)
  nfkd : pystr → pystr;
  (** [unicodedata.combining(ch)]: the canonical combining class *)
  combining : N → N;
  (** [s.lower()] *)
  str_lower : pystr → pystr;
  (** the characters [str.split()] treats as whitespace *)
  isspace : N → bool;
  (** the class [\w] of [re] on [str] patterns *)
  isword : N → bool
}.

(** Truth value of a string: [if s], [if not s]. *)
Definition truthy (s : pystr) : bool :=
  match s with [] => false | _ => true end.

(** Maximal runs of characters satisfying [P], left to right: the matches
    of [re.findall] for a pattern [[class]+]; also the fields of
    [str.split()] when [P] is "not whitespace". *)
Fixpoint runs_from (P : N → bool) (s cur : pystr) : list pystr :=
  match s with
  | [] => if truthy cur then [cur] else []
  | c :: s' =>
      if P c then runs_from P s' (cur ++ [c])
      else (if truthy cur then [cur] else []) ++ runs_from P s' []
  end.

Definition runs (P : N → bool) (s : pystr) : list pystr := runs_from P s [].

(** [s.split(sep)] for a one-character separator: empty fields are kept. *)
Fixpoint split_from (sep : N) (s cur : pystr) : list pystr :=
  match s with
  | [] => [cur]
  | c :: s' =>
      if (c =? sep)%N then cur :: split_from sep s' []
      else split_from sep s' (cur ++ [c])
  end.

Definition split_on (sep : N) (s : pystr) : list pystr := split_from sep s [].

(** [sep.join(parts)] *)
Fixpoint join (sep : pystr) (parts : list pystr) : pystr :=
  match parts with
  | [] => []
  | [p] => p
  | p :: rest => p ++ sep ++ join sep rest
  end.

(** [p in s] for strings: [p] occurs in [s] as a contiguous substring. *)
Fixpoint starts_with (p s : pystr) : bool :=
  match p, s with
  | [], _ => true
  | _ :: _, [] => false
  | a :: p', b :: s' => (a =? b)%N && starts_with p' s'
  end.

Fixpoint str_in (p s : pystr) : bool :=
  starts_with p s ||
  match s with
  | [] => false
  | _ :: s' => str_in p s'
  end.

(** [x in xs] for a list or tuple of strings. *)
Definition list_in (x : pystr) (xs : list pystr) : bool := bool_decide (x ∈ xs).

(** [xs[-1:]] *)
Definition last_slice {A} (xs : list A) : list A :=
  match last xs with Some x => [x] | None => [] end.

Definition space : pystr := [32%N].

Section WithUnicode.
Context {U : UnicodeData}.

(** [_WORD_RE = re.compile(r"[\wÀ-ÿ]+", re.UNICODE)] *)
Definition word_char (c : N) : bool :=
  isword c || ((192 <=? c)%N && (c <=? 255)%N).

(** [_strip_accents] *)
Definition _strip_accents (text : pystr) : pystr :=
  if negb (truthy text) then []
  else
    let t := nfkd text in
    filter (λ ch, combining ch = 0%N) t.

(** [normalize]; [text or ""] is [text] for a string. *)
Definition normalize (text : pystr) : pystr :=
  join space (runs (λ c, negb (isspace c)) (str_lower (_strip_accents text))).

(** [tokenize] *)
Definition tokenize (text : pystr) : list pystr :=
  filter (λ t, truthy t = true)
    (runs word_char (str_lower (_strip_accents text))).

End WithUnicode.

(** *** The character database on Latin-1 *)

(** Compatibility decomposition of one code point of U+0000..U+00FF
    (UnicodeData.txt, field 5, applied recursively). *)
Definition latin1_decomp (c : N) : pystr :=
  let grave := 768%N in let acute := 769%N in let circ := 770%N in
  let tilde := 771%N in let diaer := 776%N in let ring := 778%N in
  let cedil := 807%N in let macron := 772%N in
  let accents := [grave; acute; circ; tilde; diaer; ring] in
  let on (base : N) (first : N) : pystr :=
    [base; default grave (accents !! N.to_nat (c - first))] in
  if (c <? 160)%N then [c]
  else if (c =? 160)%N then [32%N]
  else if (c =? 168)%N then [32%N; diaer]
  else if (c =? 170)%N then [97%N]
  else if (c =? 175)%N then [32%N; macron]
  else if (c =? 178)%N then [50%N]
  else if (c =? 179)%N then [51%N]
  else if (c =? 180)%N then [32%N; acute]
  else if (c =? 181)%N then [956%N]
  else if (c =? 184)%N then [32%N; cedil]
  else if (c =? 185)%N then [49%N]
  else if (c =? 186)%N then [111%N]
  else if (c =? 188)%N then [49%N; 8260%N; 52%N]
  else if (c =? 189)%N then [49%N; 8260%N; 50%N]
  else if (c =? 190)%N then [51%N; 8260%N; 52%N]
  else if (c <? 192)%N then [c]
  else if (c <=? 197)%N then on 65%N 192%N
  else if (c =? 199)%N then [67%N; cedil]
  else if (200 <=? c)%N && (c <=? 202)%N then on 69%N 200%N
  else if (c =? 203)%N then [69%N; diaer]
  else if (204 <=? c)%N && (c <=? 206)%N then on 73%N 204%N
  else if (c =? 207)%N then [73%N; diaer]
  else if (c =? 209)%N then [78%N; tilde]
  else if (210 <=? c)%N && (c <=? 214)%N then on 79%N 210%N
  else if (217 <=? c)%N && (c <=? 219)%N then on 85%N 217%N
  else if (c =? 220)%N then [85%N; diaer]
  else if (c =? 221)%N then [89%N; acute]
  else if (224 <=? c)%N && (c <=? 229)%N then on 97%N 224%N
  else if (c =? 231)%N then [99%N; cedil]
  else if (232 <=? c)%N && (c <=? 234)%N then on 101%N 232%N
  else if (c =? 235)%N then [101%N; diaer]
  else if (236 <=? c)%N && (c <=? 238)%N then on 105%N 236%N
  else if (c =? 239)%N then [105%N; diaer]
  else if (c =? 241)%N then [110%N; tilde]
  else if (242 <=? c)%N && (c <=? 246)%N then on 111%N 242%N
  else if (249 <=? c)%N && (c <=? 251)%N then on 117%N 249%N
  else if (c =? 252)%N then [117%N; diaer]
  else if (c =? 253)%N then [121%N; acute]
  else if (c =? 255)%N then [121%N; diaer]
  else [c].

(** Combining class: non-zero on the combining diacritical marks
    U+0300..U+036F (but U+034F). *)
Definition latin1_combining (c : N) : N :=
  if (768 <=? c)%N && (c <=? 879)%N && negb (c =? 847)%N then 230%N else 0%N.

(** Lower case: A..Z and the capital letters of U+00C0..U+00DE. *)
Definition latin1_lower_char (c : N) : N :=
  if (65 <=? c)%N && (c <=? 90)%N then (c + 32)%N
  else if (192 <=? c)%N && (c <=? 222)%N && negb (c =? 215)%N then (c + 32)%N
  else c.

(** White space: TAB..CR, FS..US, SPACE, NEL, NBSP. *)
Definition latin1_isspace (c : N) : bool :=
  ((9 <=? c)%N && (c <=? 13)%N) || ((28 <=? c)%N && (c <=? 32)%N)
  || (c =? 133)%N || (c =? 160)%N.

(** Alphanumeric characters and the underscore. *)
Definition latin1_isword (c : N) : bool :=
  ((48 <=? c)%N && (c <=? 57)%N) || ((65 <=? c)%N && (c <=? 90)%N)
  || (c =? 95)%N || ((97 <=? c)%N && (c <=? 122)%N)
  || (c =? 170)%N || (c =? 178)%N || (c =? 179)%N || (c =? 181)%N
  || (c =? 185)%N || (c =? 186)%N
  || ((188 <=? c)%N && (c <=? 190)%N)
  || ((192 <=? c)%N && (c <=? 255)%N && negb (c =? 215)%N && negb (c =? 247)%N)
  || (c =? 956)%N.

#[export] Instance latin1 : UnicodeData := {|
  nfkd := flat_map latin1_decomp;
  combining := latin1_combining;
  str_lower := map latin1_lower_char;
  isspace := latin1_isspace;
  isword := latin1_isword
|}.

End Text.

Import Text.

(** ** Python floats as exact rationals, and integers *)

Module Num.

Local Open Scope Qc_scope.

(** A decimal literal of the source, as the rational it denotes. *)
Definition dec (q : Q) : Qc := Q2Qc q.

(** [min(a, b)] and [max(a, b)] of the builtins: the first argument wins
    unless the second is strictly smaller (larger). *)
Definition py_min (a b : Qc) : Qc := if bool_decide (b < a) then b else a.
Definition py_max (a b : Qc) : Qc := if bool_decide (a < b) then b else a.

(** Nearest integer, ties to the even one. *)
Definition round_half_even (q : Q) : Z :=
  let f := Qfloor q in
  match Qcompare (q - inject_Z f) (1 # 2) with
  | Lt => f
  | Gt => (f + 1)%Z
  | Eq => if Z.even f then f else (f + 1)%Z
  end.

(** [round(x, ndigits)] *)
Definition py_round (x : Qc) (ndigits : nat) : Qc :=
  let p := inject_Z (10 ^ Z.of_nat ndigits) in
  Q2Qc (inject_Z (round_half_even (this x * p)) / p).

End Num.

Import Num.

(** ** [src/sentiment.py] *)

Module Sentiment.

Local Open Scope Qc_scope.

(** [class Lexicon] (a frozen dataclass) *)
Record Lexicon := {
  pos : gmap pystr Qc;
  neg : gmap pystr Qc;
  negators : list pystr;
  intensifiers : gmap pystr Qc;
  diminishers : gmap pystr Qc
}.

(** The [__init__] that [@dataclass(frozen=True)] generates: it stores the
    five arguments.  The class defines no [__post_init__], so nothing is
    checked and nothing is raised; [None] would stand for a raised
    exception. *)
Definition Lexicon_init (pos neg : gmap pystr Qc) (negators : list pystr)
    (intensifiers diminishers : gmap pystr Qc) : option Lexicon :=
  Some {| pos := pos; neg := neg; negators := negators;
          intensifiers := intensifiers; diminishers := diminishers |}.

(** A dict display [{k1: v1, ...}]: later entries overwrite earlier ones. *)
Definition dict (kvs : list (pystr * Qc)) : gmap pystr Qc :=
  fold_left (λ m kv, <[kv.1 := kv.2]> m) kvs ∅.

(** One entry [key: value] of a dict display. *)
Definition kv (key : string) (value : Q) : pystr * Qc := (py key, dec value).
Arguments kv key%_string value%_Q.

(** [Lexicon.small_pt] *)
Definition small_pt : Lexicon := {|
  pos := dict [
    kv "bom" 1.0; kv "boa" 1.0; kv "otimo" 1.5; kv "otima" 1.5;
    kv "excelente" 2.0; kv "parabens" 1.5; kv "apoiar" 1.0; kv "apoio" 1.0;
    kv "competente" 1.5; kv "honesto" 1.5; kv "lideranca" 1.0;
    kv "vitoria" 1.2; kv "acertou" 1.2; kv "certo" 0.8; kv "tranquilo" 0.8;
    kv "feliz" 1.2 ];
  neg := dict [
    kv "ruim" (-1.2); kv "pessimo" (-2.0); kv "horrivel" (-2.2);
    kv "vergonha" (-1.8); kv "vergonhoso" (-1.8); kv "corrupto" (-2.5);
    kv "mentiroso" (-2.0); kv "incompetente" (-2.0); kv "fracasso" (-1.8);
    kv "crime" (-1.5); kv "criminoso" (-2.2); kv "canalha" (-2.2);
    kv "lixo" (-2.0); kv "odeio" (-2.0); kv "enganou" (-1.5);
    kv "errado" (-1.2); kv "culpa" (-1.0); kv "golpe" (-1.5);
    kv "vagabundo" (-2.5); kv "seboso" (-1.6) ];
  negators := map py ["nao"; "nunca"; "jamais"; "sem"]%string;
  intensifiers := dict [
    kv "muito" 1.5; kv "mais" 1.2; kv "super" 1.6; kv "extremamente" 1.8;
    kv "bastante" 1.3 ];
  diminishers := dict [ kv "pouco" 0.6; kv "meio" 0.7; kv "quase" 0.7 ]
|}.

(** [TargetedLexiconAnalyzer.__init__]: [self.lex = lex or
    Lexicon.small_pt()].  The analyzer has no other state, so it is
    represented by its lexicon. *)
Definition TargetedLexiconAnalyzer (lex : option Lexicon) : Lexicon :=
  default small_pt lex.

(** The values of [SentimentResult.label]. *)
Inductive Label := positivo | negativo | neutro.

(** [class SentimentResult] *)
Record SentimentResult := {
  label : Label;
  score : Qc;
  confidence : Qc;
  hits : Z;
  mentioned : bool
}.

(** [TargetedLexiconAnalyzer._term_polarity] *)
Definition _term_polarity (lex : Lexicon) (term : pystr) : Qc :=
  match pos lex !! term with
  | Some v => v
  | None =>
      match neg lex !! term with
      | Some v => v
      | None => dec 0.0
      end
  end.

(** [toks[j]] for an index the source keeps within range. *)
Definition item (toks : list pystr) (j : Z) : pystr :=
  default [] (toks !! Z.to_nat j).

(** [window = 3] *)
Definition window : nat := 3.

(** The connectives that close the scope of a negation. *)
Definition clause_breaks : list pystr :=
  map py ["mas"; "porem"; "porém"; "so"; "só"]%string.

(** The [while j >= 0 and steps < window] loop; [fuel] is
    [window - steps].  The result is the final value of [negated]. *)
Fixpoint negation_scan (lex : Lexicon) (toks : list pystr) (j : Z)
    (fuel : nat) : bool :=
  match fuel with
  | O => false
  | S fuel' =>
      if bool_decide (0 ≤ j)%Z then
        if list_in (item toks j) (negators lex) then true
        else if list_in (item toks j) clause_breaks then false
        else negation_scan lex toks (j - 1) fuel'
      else false
  end.

(** The multiplier [mult] contributed by the token before position [i]. *)
Definition modifier (lex : Lexicon) (toks : list pystr) (i : Z) : Qc :=
  let mult := dec 1.0 in
  let prev := if bool_decide (0 ≤ i - 1)%Z then item toks (i - 1) else [] in
  let mult :=
    match intensifiers lex !! prev with
    | Some m => mult * m
    | None => mult
    end in
  let mult :=
    match diminishers lex !! prev with
    | Some m => mult * m
    | None => mult
    end in
  mult.

(** [negated] for the token at position [i]. *)
Definition negated (lex : Lexicon) (toks : list pystr) (i : Z) : bool :=
  negation_scan lex toks (i - 1) window.

(** What one iteration adds to [score_sum]; [None] is [continue]. *)
Definition contribution (lex : Lexicon) (toks : list pystr) (i : Z)
    (t : pystr) : option Qc :=
  let pol := _term_polarity lex t in
  if bool_decide (pol = dec 0.0) then None
  else
    let mult := modifier lex toks i in
    let pol := if negated lex toks i then pol * -1 else pol in
    Some (pol * mult).

(** One iteration of [for i, t in enumerate(toks)] on [(score_sum, hits)]. *)
Definition score_step (lex : Lexicon) (toks : list pystr) (acc : Qc * Z)
    (it : Z * pystr) : Qc * Z :=
  match contribution lex toks it.1 it.2 with
  | None => acc
  | Some c => (acc.1 + c, (acc.2 + 1)%Z)
  end.

(** [enumerate(toks)] *)
Definition enumerate (toks : list pystr) : list (Z * pystr) :=
  imap (λ i t, (Z.of_nat i, t)) toks.

(** The scoring loop: the final [(score_sum, hits)]. *)
Definition score_loop (lex : Lexicon) (toks : list pystr) : Qc * Z :=
  fold_left (score_step lex toks) (enumerate toks) (dec 0.0, 0%Z).

(** The label thresholds. *)
Definition label_of (avg : Qc) : Label :=
  if bool_decide (dec 0.2 < avg) then positivo
  else if bool_decide (avg < - dec 0.2) then negativo
  else neutro.

(** The confidence before rounding. *)
Definition confidence_of (avg : Qc) (mentioned : bool) : Qc :=
  let conf := py_min (dec 1.0) (dec 0.5 + py_min (dec 0.5) (Qcabs avg)) in
  if mentioned then py_min (dec 1.0) (conf + dec 0.15) else conf.

Section WithUnicode.
Context {U : UnicodeData}.

(** The [for nt in norm_targets] loop: the final value of [mentioned]. *)
Fixpoint mention_loop (toks : list pystr) (flat : pystr)
    (norm_targets : list pystr) : bool :=
  match norm_targets with
  | [] => false
  | nt :: rest =>
      if negb (truthy nt) then mention_loop toks flat rest
      else
        let parts := filter (λ p, truthy p = true) (split_on 32 nt) in
        if str_in nt flat then true
        else if existsb (λ p, list_in p toks) (last_slice parts) then true
        else mention_loop toks flat rest
  end.

(** The mention test of [analyze], for non-empty [toks]. *)
Definition target_mentioned (toks : list pystr)
    (target_names : option (list pystr)) : bool :=
  match target_names with
  | Some (n :: ns) =>
      let norm_targets :=
        map normalize (filter (λ n, truthy n = true) (n :: ns)) in
      let flat := join space toks in
      mention_loop toks flat norm_targets
  | _ => false
  end.

(** [TargetedLexiconAnalyzer.analyze], for the analyzer built on [lex]. *)
Definition analyze (lex : Lexicon) (text : pystr)
    (target_names : option (list pystr)) : SentimentResult :=
  let toks := tokenize text in
  if negb (bool_decide (toks ≠ [])) then
    {| label := neutro; score := dec 0.0; confidence := dec 0.2;
       hits := 0; mentioned := false |}
  else
    let mentioned := target_mentioned toks target_names in
    let '(score_sum, hits) := score_loop lex toks in
    if bool_decide (hits = 0%Z) then
      {| label := neutro; score := dec 0.0;
         confidence := dec 0.3 + (if mentioned then dec 0.2 else dec 0.0);
         hits := 0; mentioned := mentioned |}
    else
      let avg := score_sum / Qc_of_Z hits in
      {| label := label_of avg;
         score := py_round avg 4;
         confidence := py_round (confidence_of avg mentioned) 3;
         hits := hits;
         mentioned := mentioned |}.

End WithUnicode.

End Sentiment.

Import Sentiment.

(** ** The partial operations of [analyze]

    The same scorer with every operation that can raise made explicit:
    [None] stands for [IndexError], [KeyError] or [ZeroDivisionError]. *)

Module Checked.

Local Open Scope Qc_scope.

(** [xs[j]]: a negative index counts from the end; [IndexError] outside
    [-len(xs) .. len(xs) - 1]. *)
Definition getitem (xs : list pystr) (j : Z) : option pystr :=
  let n := Z.of_nat (length xs) in
  if bool_decide (0 ≤ j)%Z then xs !! Z.to_nat j
  else if bool_decide (0 ≤ n + j)%Z then xs !! Z.to_nat (n + j)
  else None.

(** [d[k]]: [KeyError] for a missing key. *)
Definition getkey (d : gmap pystr Qc) (k : pystr) : option Qc := d !! k.

(** [x / n]: [ZeroDivisionError] for [n = 0]. *)
Definition truediv (x : Qc) (n : Z) : option Qc :=
  if bool_decide (n = 0%Z) then None else Some (x / Qc_of_Z n).

Definition _term_polarity (lex : Lexicon) (term : pystr) : option Qc :=
  if bool_decide (is_Some (pos lex !! term)) then getkey (pos lex) term
  else if bool_decide (is_Some (neg lex !! term)) then getkey (neg lex) term
  else Some (dec 0.0).

Fixpoint negation_scan (lex : Lexicon) (toks : list pystr) (j : Z)
    (fuel : nat) : option bool :=
  match fuel with
  | O => Some false
  | S fuel' =>
      if bool_decide (0 ≤ j)%Z then
        tj ← getitem toks j;
        if list_in tj (negators lex) then Some true
        else
          tj' ← getitem toks j;
          if list_in tj' clause_breaks then Some false
          else negation_scan lex toks (j - 1) fuel'
      else Some false
  end.

Definition modifier (lex : Lexicon) (toks : list pystr) (i : Z) : option Qc :=
  let mult := dec 1.0 in
  prev ← (if bool_decide (0 ≤ i - 1)%Z then getitem toks (i - 1) else Some []);
  mult ← (if bool_decide (is_Some (intensifiers lex !! prev))
          then m ← getkey (intensifiers lex) prev; Some (mult * m)
          else Some mult);
  mult ← (if bool_decide (is_Some (diminishers lex !! prev))
          then m ← getkey (diminishers lex) prev; Some (mult * m)
          else Some mult);
  Some mult.

Definition contribution (lex : Lexicon) (toks : list pystr) (i : Z)
    (t : pystr) : option (option Qc) :=
  pol ← _term_polarity lex t;
  if bool_decide (pol = dec 0.0) then Some None
  else
    mult ← modifier lex toks i;
    negated ← negation_scan lex toks (i - 1) window;
    let pol := if negated : bool then pol * -1 else pol in
    Some (Some (pol * mult)).

Definition score_step (lex : Lexicon) (toks : list pystr)
    (acc : option (Qc * Z)) (it : Z * pystr) : option (Qc * Z) :=
  acc ← acc;
  c ← contribution lex toks it.1 it.2;
  match c with
  | None => Some acc
  | Some c => Some (acc.1 + c, (acc.2 + 1)%Z)
  end.

Definition score_loop (lex : Lexicon) (toks : list pystr) : option (Qc * Z) :=
  fold_left (score_step lex toks) (enumerate toks) (Some (dec 0.0, 0%Z)).

Section WithUnicode.
Context {U : UnicodeData}.

Definition analyze (lex : Lexicon) (text : pystr)
    (target_names : option (list pystr)) : option SentimentResult :=
  let toks := tokenize text in
  if negb (bool_decide (toks ≠ [])) then
    Some {| label := neutro; score := dec 0.0; confidence := dec 0.2;
            hits := 0; mentioned := false |}
  else
    let mentioned := target_mentioned toks target_names in
    sh ← score_loop lex toks;
    let '(score_sum, hits) := sh in
    if bool_decide (hits = 0%Z) then
      Some {| label := neutro; score := dec 0.0;
              confidence := dec 0.3 + (if mentioned then dec 0.2 else dec 0.0);
              hits := 0; mentioned := mentioned |}
    else
      avg ← truediv score_sum hits;
      Some {| label := label_of avg;
              score := py_round avg 4;
              confidence := py_round (confidence_of avg mentioned) 3;
              hits := hits;
              mentioned := mentioned |}.

End WithUnicode.

End Checked.

(** ** [src/sentiment_report.py]: stance detection and attribution *)

Module Report.

Local Open Scope Qc_scope.

(** The values [_detect_news_stance] returns. *)
Module Stance.
Inductive t := concorda | discorda | indefinido.
End Stance.

(** The values of the third component of [_derive_final_label]. *)
Module Origin.
Inductive t :=
  comentario_direto | alinhamento_noticia_stance | alinhamento_noticia
| indefinido.
End Origin.

(** The tuple [keys] of [_has_article_reference]. *)
Definition keys : list pystr :=
  map py [ "materia"; "noticia"; "reportagem"; "esta materia"; "essa materia";
           "esta noticia"; "essa noticia"; "esta reportagem";
           "essa reportagem"; "a materia"; "a noticia"; "a reportagem";
           "no farol"; "do farol" ]%string.

(** The tuple [disagree] of [_detect_news_stance]. *)
Definition disagree : list pystr :=
  map py [ "discordo"; "nao concordo"; "mentira"; "e mentira";
           "isso e mentira"; "fake news"; "fake"; "nao e verdade"; "falso";
           "nao confere"; "improcedente"; "nao procede"; "errado";
           "nada a ver" ]%string.

(** The tuple [agree] of [_detect_news_stance]. *)
Definition agree : list pystr :=
  map py [ "concordo"; "concorda"; "verdade"; "e verdade"; "isso e verdade";
           "confere"; "procedente"; "ta certo"; "esta certo"; "correto";
           "isso mesmo"; "bem dito" ]%string.

(** [label in ("positivo", "negativo")] *)
Definition polar (l : Label) : bool :=
  match l with
  | positivo | negativo => true
  | neutro => false
  end.

Section WithUnicode.
Context {U : UnicodeData}.

(** [_has_article_reference] *)
Definition _has_article_reference (text : pystr) : bool :=
  let t := normalize text in
  existsb (λ k, str_in k t) keys.

(** [_detect_news_stance] *)
Definition _detect_news_stance (text : pystr) : Stance.t :=
  let t := normalize text in
  if existsb (λ pat, str_in pat t) disagree then Stance.discorda
  else if existsb (λ pat, str_in pat t) agree then Stance.concorda
  else Stance.indefinido.

End WithUnicode.

(** The value of the two [return "neutro", ...] statements. *)
Definition undetermined (comment_res : SentimentResult)
    : Label * Qc * Origin.t :=
  (neutro,
   py_min (dec 0.5) (py_max (dec 0.25) (confidence comment_res * dec 0.5)),
   Origin.indefinido).

(** [_derive_final_label] *)
Definition _derive_final_label (comment_res : SentimentResult)
    (article_res : option SentimentResult) (mentioned article_ref : bool)
    (stance : Stance.t) : Label * Qc * Origin.t :=
  if mentioned then
    (label comment_res, confidence comment_res, Origin.comentario_direto)
  else if negb article_ref then
    undetermined comment_res
  else
    match article_res with
    | Some article_res =>
        if bool_decide (0 < hits article_res)%Z && polar (label article_res)
        then
          match stance with
          | Stance.concorda | Stance.discorda =>
              let final_label :=
                match stance with
                | Stance.concorda => label article_res
                | _ =>
                    match label article_res with
                    | positivo => negativo
                    | _ => positivo
                    end
                end in
              let final_conf :=
                py_min (dec 1.0) (dec 0.6 + dec 0.4 * confidence article_res) in
              (final_label, py_round final_conf 3,
               Origin.alinhamento_noticia_stance)
          | Stance.indefinido =>
              if bool_decide (0 < hits comment_res)%Z
                 && polar (label comment_res)
              then
                let final_label :=
                  match label article_res with
                  | positivo => label comment_res
                  | _ =>
                      match label comment_res with
                      | negativo => positivo
                      | _ => negativo
                      end
                  end in
                let final_conf :=
                  py_min (dec 1.0)
                    (dec 0.5
                     + (confidence article_res + confidence comment_res)
                       / dec 2) in
                (final_label, py_round final_conf 3,
                 Origin.alinhamento_noticia)
              else undetermined comment_res
          end
        else undetermined comment_res
    | None => undetermined comment_res
    end.

End Report.

Import Report.

(** ** [src/sentiment_report.py]: the rows of the report *)

Module Pipeline.

(** A row of [ARTICLE_QUERY]; [titulo] and [corpo] may be [NULL]. *)
Record ArticleRow := {
  a_id_pessoa : Z;
  a_nome_pessoa : pystr;
  a_artigo_url : pystr;
  a_titulo : option pystr;
  a_corpo : option pystr
}.

(** The columns of a row of [QUERY] that the analysis reads; [conteudo]
    may be [NULL]. *)
Record CommentRow := {
  c_id_pessoa : Z;
  c_nome_pessoa : pystr;
  c_artigo_url : pystr;
  c_conteudo : option pystr
}.

(** What [generate_sentiment_report] computes for one comment before it
    writes the line. *)
Record Attribution := {
  r_res : SentimentResult;
  r_art_res : option SentimentResult;
  r_ref : bool;
  r_stance : Stance.t;
  r_final : Label * Qc * Origin.t
}.

(** [x or ""] for a nullable string. *)
Definition or_empty (x : option pystr) : pystr :=
  match x with
  | Some s => if truthy s then s else []
  | None => []
  end.

Section WithUnicode.
Context {U : UnicodeData}.

(** The target names of a person: the full name and, when the normalised
    name has a word, its last word. *)
Definition target_variants (nome_pessoa : pystr) : list pystr :=
  let target_variants := [nome_pessoa] in
  let parts :=
    filter (λ p, truthy p = true) (split_on 32 (normalize nome_pessoa)) in
  match last parts with
  | Some surname => target_variants ++ [surname]
  | None => target_variants
  end.

(** The body of the loop of [_compute_article_sentiments]: the result for
    one row. *)
Definition article_result (lex : Lexicon) (row : ArticleRow)
    : SentimentResult :=
  let texto :=
    or_empty (a_titulo row) ++ [10%N; 10%N] ++ or_empty (a_corpo row) in
  analyze lex texto (Some (target_variants (a_nome_pessoa row))).

(** [_compute_article_sentiments], on the rows the cursor fetched. *)
Definition _compute_article_sentiments (lex : Lexicon)
    (rows : list ArticleRow) : gmap (pystr * Z) SentimentResult :=
  fold_left
    (λ art_res row,
       <[(a_artigo_url row, a_id_pessoa row) := article_result lex row]>
         art_res)
    rows ∅.

(** The body of the loop of [generate_sentiment_report], up to the line
    it writes. *)
Definition comment_attribution (lex : Lexicon)
    (article_map : gmap (pystr * Z) SentimentResult) (row : CommentRow)
    : Attribution :=
  let target_variants := target_variants (c_nome_pessoa row) in
  let res :=
    analyze lex (or_empty (c_conteudo row)) (Some target_variants) in
  let art_res := article_map !! (c_artigo_url row, c_id_pessoa row) in
  let ref := _has_article_reference (or_empty (c_conteudo row)) in
  let stance := _detect_news_stance (or_empty (c_conteudo row)) in
  {| r_res := res; r_art_res := art_res; r_ref := ref; r_stance := stance;
     r_final := _derive_final_label res art_res (mentioned res) ref stance |}.

End WithUnicode.

End Pipeline.

Import Pipeline.

(** ** [src/sentiment_report.py]: [aggregate_by_person] *)

Module Aggregate.

Local Open Scope Z_scope.

(** A line of the detailed CSV as [csv.DictReader] yields it: the columns
    of the header, each with its text, or [None] for a line that is too
    short. *)
Definition CsvRow : Type := gmap pystr (option pystr).

(** The key of [counts]: [(pid, pname)]. *)
Definition PersonKey : Type := (option pystr * option pystr)%type.

(** The dict [{"pos": .., "neg": .., "neu": .., "total": .., "mention": ..}]. *)
Record Counter := {
  pos : Z;
  neg : Z;
  neu : Z;
  total : Z;
  mention : Z
}.

Definition zero : Counter :=
  {| pos := 0; neg := 0; neu := 0; total := 0; mention := 0 |}.

(** [x or y] on values that are a string or [None]. *)
Definition or_else (x y : option pystr) : option pystr :=
  match x with
  | Some s => if truthy s then x else y
  | None => y
  end.

(** [row.get(k)] *)
Definition get (row : CsvRow) (k : string) : option pystr :=
  default None (row !! py k).

(** The updates of one iteration on the dict [d] of the person. *)
Definition count_row (row : CsvRow) (d : Counter) : Counter :=
  let lab :=
    or_else (or_else (get row "sentimento_final") (get row "sentimento"))
      (Some (py "neutro")) in
  let d :=
    if bool_decide (lab = Some (py "positivo")) then
      {| pos := pos d + 1; neg := neg d; neu := neu d; total := total d;
         mention := mention d |}
    else if bool_decide (lab = Some (py "negativo")) then
      {| pos := pos d; neg := neg d + 1; neu := neu d; total := total d;
         mention := mention d |}
    else
      {| pos := pos d; neg := neg d; neu := neu d + 1; total := total d;
         mention := mention d |} in
  let d :=
    {| pos := pos d; neg := neg d; neu := neu d; total := total d + 1;
       mention := mention d |} in
  if bool_decide (get row "alvo_mencionado" = Some (py "1")) then
    {| pos := pos d; neg := neg d; neu := neu d; total := total d;
       mention := mention d + 1 |}
  else d.

(** [counts.setdefault(key, zero)] followed by the update [f] of the dict
    it returns; [counts] keeps its keys in the order of insertion. *)
Fixpoint update (key : PersonKey) (f : Counter → Counter)
    (counts : list (PersonKey * Counter)) : list (PersonKey * Counter) :=
  match counts with
  | [] => [(key, f zero)]
  | (k, d) :: rest =>
      if bool_decide (k = key) then (k, f d) :: rest
      else (k, d) :: update key f rest
  end.

(** One iteration of [for row in r]; [None] is the [KeyError] of
    [row["id_pessoa"]] or [row["nome_pessoa"]]. *)
Definition count_step (counts : option (list (PersonKey * Counter)))
    (row : CsvRow) : option (list (PersonKey * Counter)) :=
  counts ← counts;
  pid ← row !! py "id_pessoa";
  pname ← row !! py "nome_pessoa";
  Some (update (pid, pname) (count_row row) counts).

(** The first loop of [aggregate_by_person]: the final [counts]. *)
Definition count_rows (rows : list CsvRow)
    : option (list (PersonKey * Counter)) :=
  fold_left count_step rows (Some []).

End Aggregate.

(** ** The arithmetic on binary64

    The numeric code of [analyze], of [_derive_final_label] and of the
    shares of [aggregate_by_person] once more, with a Python [float] as the
    IEEE 754 binary64 number it is ([PrimFloat.float]): every addition,
    multiplication and division rounds to the nearest double, ties to
    even.  Statements on the value of a computed number are made on these
    definitions; tokens, negation scopes, mention and stance do not depend
    on the arithmetic and are shared with the modules above. *)

Module Binary64.

Local Open Scope float_scope.

(** [min(a, b)] and [max(a, b)] of the builtins: the first argument wins
    unless the second is strictly smaller (larger); a comparison with NaN
    is false. *)
Definition py_min (a b : float) : float := if b <? a then b else a.
Definition py_max (a b : float) : float := if a <? b then b else a.

(** [float(n)], and the conversion of an [int] operand of a float
    operation: the double nearest to [n], ties to even.  (Beyond the
    largest double Python raises [OverflowError]; the integers converted
    here count tokens or lines.) *)
Definition of_int (n : Z) : float :=
  SF2Prim (binary_normalize prec emax n 0 false).

(** The exact value of a positive finite double [m * 2^e]. *)
Definition magnitude (m : positive) (e : Z) : Q :=
  match e with
  | Z0 => inject_Z (Z.pos m)
  | Z.pos n => inject_Z (Z.pos m * 2 ^ Z.pos n)
  | Z.neg n => Z.pos m # 2 ^ n
  end.

(** The double nearest to the fraction [k / p], with sign [s]. *)
Definition of_ratio (s : bool) (k p : positive) : float :=
  SF2Prim (SFdiv prec emax (S754_finite s k 0) (S754_finite false p 0)).

(** [round(x, ndigits)] for a float [x] and [ndigits >= 0]
    ([float.__round__]): the exact binary value of [x] is rounded half to
    even at [ndigits] decimals, and the decimal obtained is converted to
    the nearest double, with the sign of [x]; zeros, infinities and NaN
    are returned as they are. *)
Definition py_round (x : float) (ndigits : nat) : float :=
  match Prim2SF x with
  | S754_finite s m e =>
      let p := Z.to_pos (10 ^ Z.of_nat ndigits) in
      match round_half_even (magnitude m e * inject_Z (Z.pos p)) with
      | Z.pos k => of_ratio s k p
      | _ => SF2Prim (S754_zero s)
      end
  | _ => x
  end.

(** [class Lexicon] *)
Record Lexicon := {
  pos : gmap pystr float;
  neg : gmap pystr float;
  negators : list pystr;
  intensifiers : gmap pystr float;
  diminishers : gmap pystr float
}.

(** A dict display [{k1: v1, ...}]. *)
Definition dict (kvs : list (pystr * float)) : gmap pystr float :=
  fold_left (λ m kv, <[kv.1 := kv.2]> m) kvs ∅.

(** One entry [key: value] of a dict display. *)
Definition kv (key : string) (value : float) : pystr * float :=
  (py key, value).
Arguments kv key%_string value%_float.

(** [Lexicon.small_pt] *)
Definition small_pt : Lexicon := {|
  pos := dict [
    kv "bom" 1.0; kv "boa" 1.0; kv "otimo" 1.5; kv "otima" 1.5;
    kv "excelente" 2.0; kv "parabens" 1.5; kv "apoiar" 1.0; kv "apoio" 1.0;
    kv "competente" 1.5; kv "honesto" 1.5; kv "lideranca" 1.0;
    kv "vitoria" 1.2; kv "acertou" 1.2; kv "certo" 0.8; kv "tranquilo" 0.8;
    kv "feliz" 1.2 ];
  neg := dict [
    kv "ruim" (-1.2); kv "pessimo" (-2.0); kv "horrivel" (-2.2);
    kv "vergonha" (-1.8); kv "vergonhoso" (-1.8); kv "corrupto" (-2.5);
    kv "mentiroso" (-2.0); kv "incompetente" (-2.0); kv "fracasso" (-1.8);
    kv "crime" (-1.5); kv "criminoso" (-2.2); kv "canalha" (-2.2);
    kv "lixo" (-2.0); kv "odeio" (-2.0); kv "enganou" (-1.5);
    kv "errado" (-1.2); kv "culpa" (-1.0); kv "golpe" (-1.5);
    kv "vagabundo" (-2.5); kv "seboso" (-1.6) ];
  negators := map py ["nao"; "nunca"; "jamais"; "sem"]%string;
  intensifiers := dict [
    kv "muito" 1.5; kv "mais" 1.2; kv "super" 1.6; kv "extremamente" 1.8;
    kv "bastante" 1.3 ];
  diminishers := dict [ kv "pouco" 0.6; kv "meio" 0.7; kv "quase" 0.7 ]
|}.

(** [class SentimentResult] *)
Record SentimentResult := {
  label : Label;
  score : float;
  confidence : float;
  hits : Z;
  mentioned : bool
}.

(** [TargetedLexiconAnalyzer._term_polarity] *)
Definition _term_polarity (lex : Lexicon) (term : pystr) : float :=
  match pos lex !! term with
  | Some v => v
  | None =>
      match neg lex !! term with
      | Some v => v
      | None => 0.0
      end
  end.

(** The [while j >= 0 and steps < window] loop; [fuel] is
    [window - steps]. *)
Fixpoint negation_scan (lex : Lexicon) (toks : list pystr) (j : Z)
    (fuel : nat) : bool :=
  match fuel with
  | O => false
  | S fuel' =>
      if bool_decide (0 ≤ j)%Z then
        if list_in (item toks j) (negators lex) then true
        else if list_in (item toks j) clause_breaks then false
        else negation_scan lex toks (j - 1)%Z fuel'
      else false
  end.

(** The multiplier [mult] contributed by the token before position [i]. *)
Definition modifier (lex : Lexicon) (toks : list pystr) (i : Z) : float :=
  let mult := 1.0 in
  let prev := if bool_decide (0 ≤ i - 1)%Z then item toks (i - 1)%Z else [] in
  let mult :=
    match intensifiers lex !! prev with
    | Some m => mult * m
    | None => mult
    end in
  let mult :=
    match diminishers lex !! prev with
    | Some m => mult * m
    | None => mult
    end in
  mult.

(** [negated] for the token at position [i]. *)
Definition negated (lex : Lexicon) (toks : list pystr) (i : Z) : bool :=
  negation_scan lex toks (i - 1)%Z window.

(** What one iteration adds to [score_sum]; [None] is [continue].  The
    test [pol == 0.0] is the comparison of floats; [pol *= -1] multiplies
    by [-1.0]. *)
Definition contribution (lex : Lexicon) (toks : list pystr) (i : Z)
    (t : pystr) : option float :=
  let pol := _term_polarity lex t in
  if pol =? 0.0 then None
  else
    let mult := modifier lex toks i in
    let pol := if negated lex toks i then pol * -1 else pol in
    Some (pol * mult).

(** One iteration of [for i, t in enumerate(toks)] on [(score_sum, hits)]. *)
Definition score_step (lex : Lexicon) (toks : list pystr) (acc : float * Z)
    (it : Z * pystr) : float * Z :=
  match contribution lex toks it.1 it.2 with
  | None => acc
  | Some c => (acc.1 + c, (acc.2 + 1)%Z)
  end.

(** The scoring loop: the final [(score_sum, hits)]. *)
Definition score_loop (lex : Lexicon) (toks : list pystr) : float * Z :=
  fold_left (score_step lex toks) (enumerate toks) (0.0, 0%Z).

(** The label thresholds. *)
Definition label_of (avg : float) : Label :=
  if 0.2 <? avg then positivo
  else if avg <? -0.2 then negativo
  else neutro.

(** The confidence before rounding. *)
Definition confidence_of (avg : float) (mentioned : bool) : float :=
  let conf := py_min 1.0 (0.5 + py_min 0.5 (abs avg)) in
  if mentioned then py_min 1.0 (conf + 0.15) else conf.

Section WithUnicode.
Context {U : UnicodeData}.

(** [TargetedLexiconAnalyzer.analyze], for the analyzer built on [lex];
    [avg = score_sum / hits] divides by [hits] converted to a float. *)
Definition analyze (lex : Lexicon) (text : pystr)
    (target_names : option (list pystr)) : SentimentResult :=
  let toks := tokenize text in
  if negb (bool_decide (toks ≠ [])) then
    {| label := neutro; score := 0.0; confidence := 0.2;
       hits := 0; mentioned := false |}
  else
    let mentioned := target_mentioned toks target_names in
    let '(score_sum, hits) := score_loop lex toks in
    if bool_decide (hits = 0%Z) then
      {| label := neutro; score := 0.0;
         confidence := 0.3 + (if mentioned then 0.2 else 0.0);
         hits := 0; mentioned := mentioned |}
    else
      let avg := score_sum / of_int hits in
      {| label := label_of avg;
         score := py_round avg 4;
         confidence := py_round (confidence_of avg mentioned) 3;
         hits := hits;
         mentioned := mentioned |}.

End WithUnicode.

(** The value of the two [return "neutro", ...] statements. *)
Definition undetermined (comment_res : SentimentResult)
    : Label * float * Origin.t :=
  (neutro,
   py_min 0.5 (py_max 0.25 (confidence comment_res * 0.5)),
   Origin.indefinido).

(** [_derive_final_label] *)
Definition _derive_final_label (comment_res : SentimentResult)
    (article_res : option SentimentResult) (mentioned article_ref : bool)
    (stance : Stance.t) : Label * float * Origin.t :=
  if mentioned then
    (label comment_res, confidence comment_res, Origin.comentario_direto)
  else if negb article_ref then
    undetermined comment_res
  else
    match article_res with
    | Some article_res =>
        if bool_decide (0 < hits article_res)%Z && polar (label article_res)
        then
          match stance with
          | Stance.concorda | Stance.discorda =>
              let final_label :=
                match stance with
                | Stance.concorda => label article_res
                | _ =>
                    match label article_res with
                    | positivo => negativo
                    | _ => positivo
                    end
                end in
              let final_conf :=
                py_min 1.0 (0.6 + 0.4 * confidence article_res) in
              (final_label, py_round final_conf 3,
               Origin.alinhamento_noticia_stance)
          | Stance.indefinido =>
              if bool_decide (0 < hits comment_res)%Z
                 && polar (label comment_res)
              then
                let final_label :=
                  match label article_res with
                  | positivo => label comment_res
                  | _ =>
                      match label comment_res with
                      | negativo => positivo
                      | _ => negativo
                      end
                  end in
                let final_conf :=
                  py_min 1.0
                    (0.5
                     + (confidence article_res + confidence comment_res)
                       / 2) in
                (final_label, py_round final_conf 3,
                 Origin.alinhamento_noticia)
              else undetermined comment_res
          end
        else undetermined comment_res
    | None => undetermined comment_res
    end.

(** A result with at least one hit and a polar label. *)
Definition determinate (r : SentimentResult) : Prop :=
  (0 < hits r)%Z ∧ polar (label r) = true.

(** A share of the output line of [aggregate_by_person], before it is
    formatted: [d[..] / tot] with [tot = max(1.0, float(d["total"]))]. *)
Definition share (part total : Z) : float :=
  let tot := py_max 1.0 (of_int total) in
  of_int part / tot.

End Binary64.

(** ** Vocabulary of the statements *)

Module Spec.



(** What the polarized tokens of [toks] add to [score_sum], in order. *)
Definition contributions (lex : Lexicon) (toks : list pystr) : list Qc :=
  omap (λ it, contribution lex toks it.1 it.2) (enumerate toks).

(** [clamp(x, lo, hi)]: [x] brought into the interval from [lo] to [hi]. *)
Definition clamp (x lo hi : Qc) : Qc :=
  if bool_decide (x < lo)%Qc then lo
  else if bool_decide (hi < x)%Qc then hi
  else x.

(** Equality of labels, stances and origins is decidable. *)
#[export] Instance Label_eq_dec : EqDecision Label.
Proof. solve_decision. Defined.

#[export] Instance Stance_eq_dec : EqDecision Stance.t.
Proof. solve_decision. Defined.

#[export] Instance Origin_eq_dec : EqDecision Origin.t.
Proof. solve_decision. Defined.

(** The other pole: [positivo] for [negativo] and back. *)
Definition opposite (l : Label) : Label :=
  match l with
  | positivo => negativo
  | negativo => positivo
  | neutro => neutro
  end.

(** A result carries a determinate sentiment: some hit, and a polar label. *)
Definition determinate (r : SentimentResult) : Prop :=
  0 < hits r ∧ polar (label r) = true.

(** One of the two alignment rules of the cascade fires: the article has a
    determinate sentiment and either the stance is explicit or the comment
    has a determinate sentiment of its own. *)
Definition alignment_applies (comment_res : SentimentResult)
    (article_res : option SentimentResult) (stance : Stance.t) : Prop :=
  ∃ a, article_res = Some a ∧ determinate a
       ∧ (stance ≠ Stance.indefinido ∨ determinate comment_res).

(** The characters a token of a Latin-1 text can hold: the digits, the
    letters a..z, the underscore, and the eight characters of the range
    À-ÿ (or produced from it) that have no accent to strip and no capital
    form: × ß æ ð ÷ ø þ μ. *)
Definition plain_char (c : N) : bool :=
  ((48 <=? c)%N && (c <=? 57)%N) || ((97 <=? c)%N && (c <=? 122)%N)
  || (c =? 95)%N
  || bool_decide (c ∈ [215; 223; 230; 240; 247; 248; 254; 956]%N).

(** The phrases of [keys], [disagree] and [agree] that contain no other
    phrase of their tuple. *)
Definition core_keys : list pystr :=
  map py [ "materia"; "noticia"; "reportagem"; "no farol"; "do farol" ]%string.

Definition core_disagree : list pystr :=
  map py [ "discordo"; "nao concordo"; "mentira"; "fake"; "nao e verdade";
           "falso"; "nao confere"; "improcedente"; "nao procede"; "errado";
           "nada a ver" ]%string.

Definition core_agree : list pystr :=
  map py [ "concordo"; "concorda"; "verdade"; "confere"; "procedente";
           "ta certo"; "correto"; "isso mesmo"; "bem dito" ]%string.

(** Some phrase of [pats] occurs in [t]. *)
Definition occurs_any (pats : list pystr) (t : pystr) : Prop :=
  ∃ pat, pat ∈ pats ∧ str_in pat t = true.

(** The person a CSV line belongs to, when the line has both columns. *)
Definition row_key (row : Aggregate.CsvRow) : option Aggregate.PersonKey :=
  pid ← row !! py "id_pessoa";
  pname ← row !! py "nome_pessoa";
  Some (pid, pname).

(** The label [aggregate_by_person] reads off a line. *)
Definition row_label (row : Aggregate.CsvRow) : option pystr :=
  Aggregate.or_else
    (Aggregate.or_else (Aggregate.get row "sentimento_final")
       (Aggregate.get row "sentimento"))
    (Some (py "neutro")).

(** [counts.get(key)] *)
Fixpoint counts_get (key : Aggregate.PersonKey)
    (counts : list (Aggregate.PersonKey * Aggregate.Counter))
    : option Aggregate.Counter :=
  match counts with
  | [] => None
  | (k, d) :: rest => if bool_decide (k = key) then Some d else counts_get key rest
  end.

(** A line counts as [lab]; a line raises the mention count. *)
Definition labelled (lab : string) (row : Aggregate.CsvRow) : bool :=
  bool_decide (row_label row = Some (py lab)).

Definition flagged (row : Aggregate.CsvRow) : bool :=
  bool_decide (Aggregate.get row "alvo_mencionado" = Some (py "1")).

(** How many lines of [rows] belong to [key] and satisfy [P]. *)
Definition lines_of (key : Aggregate.PersonKey) (P : Aggregate.CsvRow → bool)
    (rows : list Aggregate.CsvRow) : Z :=
  Z.of_nat
    (length (filter (λ row, P row = true ∧ row_key row = Some key) rows)).

(** The sum of the [total] fields of [counts]. *)
Definition sum_totals (counts : list (Aggregate.PersonKey * Aggregate.Counter))
    : Z :=
  foldr (λ kd acc, Aggregate.total kd.2 + acc) 0 counts.

Section WithUnicode.
Context {U : UnicodeData}.

(** The surname [analyze] looks up for a target: the last non-empty field
    of the normalised name; an empty name is skipped. *)
Definition surname (target : pystr) : option pystr :=
  if truthy target
  then last (filter (λ p, truthy p = true) (split_on 32 (normalize target)))
  else None.

End WithUnicode.

End Spec.

Import Spec.

(** * Properties *)

(** ** Literal scenarios *)

Example default_analyzer : TargetedLexiconAnalyzer None = small_pt.
Proof. reflexivity. Qed.

Example small_pt_constructed :
  Lexicon_init (pos small_pt) (neg small_pt) (negators small_pt)
    (intensifiers small_pt) (diminishers small_pt) = Some small_pt.
Proof. reflexivity. Qed.

Example tokenize_sample :
  tokenize (py "Ele é MUITO bom!") = map py ["ele"; "e"; "muito"; "bom"]%string.
Proof. reflexivity. Qed.

Example normalize_sample :
  normalize (py "  Não   concordo com a MATÉRIA ")
  = py "nao concordo com a materia".
Proof. reflexivity. Qed.

Example analyze_intensified :
  let r := analyze small_pt (py "Ele é muito bom") (Some []) in
  label r = positivo ∧ score r = dec 1.5 ∧ confidence r = dec 1.0
  ∧ hits r = 1 ∧ mentioned r = false.
Proof.
  repeat split; try reflexivity; apply Qc_is_canon; reflexivity.
Qed.

Example analyze_full_name_mention :
  let r := analyze small_pt (py "João Silva? Nada a dizer.")
             (Some [py "João Silva"; py "silva"]) in
  label r = neutro ∧ confidence r = dec 0.5 ∧ hits r = 0 ∧ mentioned r = true.
Proof.
  repeat split; try reflexivity; apply Qc_is_canon; reflexivity.
Qed.

Example derive_direct_comment :
  let c := {| label := negativo; score := dec (-1.2); confidence := dec 1.0;
              hits := 1; mentioned := true |} in
  _derive_final_label c None true false Stance.indefinido
  = (negativo, dec 1.0, Origin.comentario_direto).
Proof. reflexivity. Qed.

Example derive_alignment_without_stance :
  let c := {| label := negativo; score := dec (-1.2); confidence := dec 1.0;
              hits := 1; mentioned := false |} in
  let a := {| label := negativo; score := dec (-2.0); confidence := dec 0.9;
              hits := 2; mentioned := true |} in
  let final := _derive_final_label c (Some a) false true Stance.indefinido in
  final.1.1 = positivo ∧ final.1.2 = dec 1.0
  ∧ final.2 = Origin.alinhamento_noticia.
Proof.
  repeat split; try reflexivity; apply Qc_is_canon; reflexivity.
Qed.

(** The same scenarios on binary64. *)

Example analyze_intensified_binary64 :
  let r := Binary64.analyze Binary64.small_pt (py "Ele é muito bom")
             (Some []) in
  r = {| Binary64.label := positivo; Binary64.score := 1.5;
         Binary64.confidence := 1.0; Binary64.hits := 1;
         Binary64.mentioned := false |}.
Proof. vm_compute. reflexivity. Qed.

(** [(1.2 + -1.6) / 2] is -0.20000000000000007 on binary64, below the
    threshold -0.2; the score reported is that average rounded to 4
    decimals, -0.2. *)
Example analyze_below_threshold_binary64 :
  let r := Binary64.analyze Binary64.small_pt (py "feliz seboso") None in
  (Binary64.score_loop Binary64.small_pt (tokenize (py "feliz seboso"))).1
  = (-0x1.999999999999cp-2)%float
  ∧ r = {| Binary64.label := negativo; Binary64.score := -0.2;
           Binary64.confidence := 0.7; Binary64.hits := 2;
           Binary64.mentioned := false |}.
Proof. split; vm_compute; reflexivity. Qed.

(** [0.6 + 0.4 * 0.00375] is 0.60149999999999992 on binary64 and rounds to
    0.601; [0.5 + (0.2 + 0.201) / 2] lies just above 0.7005 and rounds to
    0.701. *)
Example derive_rounding_binary64 :
  let res (l : Label) (c : float) (h : Z) :=
    {| Binary64.label := l; Binary64.score := 0.0; Binary64.confidence := c;
       Binary64.hits := h; Binary64.mentioned := false |} in
  Binary64._derive_final_label (res neutro 0.3%float 0)
    (Some (res positivo 0.00375%float 3)) false true Stance.concorda
  = (positivo, 0.601%float, Origin.alinhamento_noticia_stance)
  ∧ Binary64._derive_final_label (res negativo 0.201%float 1)
      (Some (res positivo 0.2%float 3)) false true Stance.indefinido
    = (negativo, 0.701%float, Origin.alinhamento_noticia).
Proof. split; vm_compute; reflexivity. Qed.

(** The three shares of the counts 1, 4 and 1 of 6 lines add up to
    0.99999999999999989 on binary64. *)
Example shares_sum_binary64 :
  (Binary64.share 1 6 + Binary64.share 4 6 + Binary64.share 1 6)%float
  = 0x1.fffffffffffffp-1%float.
Proof. vm_compute. reflexivity. Qed.

(** ** Arithmetic of the exact model *)

(** Order facts on [Qc], decided on the underlying fractions. *)
Ltac qc_order :=
  unfold Qclt, Qcle in *; cbn in *;
  repeat match goal with
         | H : context [Qred ?q] |- _ => rewrite (Qred_correct q) in H
         | |- context [Qred ?q] => rewrite (Qred_correct q)
         end;
  lra.

Section Arith.

Local Open Scope Q_scope.

Lemma round_half_even_mono (q1 q2 : Q) :
  q1 <= q2 → (round_half_even q1 ≤ round_half_even q2)%Z.
Proof.
  intros Hle. unfold round_half_even.
  pose proof (Qfloor_resp_le _ _ Hle) as Hfl.
  destruct (Z.eq_dec (Qfloor q1) (Qfloor q2)) as [Heq | Hne].
  - rewrite <- Heq. clear Heq Hfl.
    generalize (inject_Z (Qfloor q1)). intros a.
    destruct (Qcompare_spec (q1 - a) (1 # 2)) as [E1 | L1 | G1];
    destruct (Qcompare_spec (q2 - a) (1 # 2)) as [E2 | L2 | G2];
    try lia; try (exfalso; lra); destruct (Z.even (Qfloor q1)); lia.
  - assert (Qfloor q1 + 1 ≤ Qfloor q2)%Z as Hstep by lia.
    destruct (Qcompare (q1 - inject_Z (Qfloor q1)) (1 # 2));
    destruct (Qcompare (q2 - inject_Z (Qfloor q2)) (1 # 2));
    repeat match goal with |- context [Z.even ?z] => destruct (Z.even z) end;
    lia.
Qed.

Lemma inject_pow10_pos (n : nat) : 0 < inject_Z (10 ^ Z.of_nat n).
Proof.
  change 0 with (inject_Z 0). rewrite <- Zlt_Qlt. apply Z.pow_pos_nonneg; lia.
Qed.

Lemma py_round_mono (x y : Qc) (n : nat) :
  (x ≤ y)%Qc → (py_round x n ≤ py_round y n)%Qc.
Proof.
  intros Hle. unfold py_round, Qcle. simpl this. rewrite !Qred_correct.
  pose proof (inject_pow10_pos n) as Hp.
  set (p := inject_Z (10 ^ Z.of_nat n)) in *.
  apply Qmult_le_compat_r; [ | apply Qlt_le_weak, Qinv_lt_0_compat, Hp ].
  rewrite <- Zle_Qle. apply round_half_even_mono.
  apply Qmult_le_compat_r; [ exact Hle | apply Qlt_le_weak, Hp ].
Qed.

End Arith.

(** ** Thresholds and confidence *)

Lemma py_min_le_l (a b : Qc) : (py_min a b ≤ a)%Qc.
Proof.
  unfold py_min. case_bool_decide as Hlt.
  - by apply Qclt_le_weak.
  - apply Qcle_refl.
Qed.

Lemma py_min_glb (a b c : Qc) :
  (c ≤ a)%Qc → (c ≤ b)%Qc → (c ≤ py_min a b)%Qc.
Proof. intros Ha Hb. unfold py_min. by case_bool_decide. Qed.

Lemma confidence_of_mention (avg : Qc) :
  (confidence_of avg false ≤ confidence_of avg true)%Qc.
Proof.
  unfold confidence_of.
  set (conf := py_min (dec 1.0) (dec 0.5 + py_min (dec 0.5) (Qcabs avg))%Qc).
  apply py_min_glb.
  - apply py_min_le_l.
  - rewrite <- (Qcplus_0_r conf) at 1.
    apply Qcplus_le_compat; [ apply Qcle_refl | done ].
Qed.

Lemma label_of_spec (avg : Qc) :
  (label_of avg = positivo ↔ (dec 0.2 < avg)%Qc)
  ∧ (label_of avg = negativo ↔ (avg < - dec 0.2)%Qc)
  ∧ (label_of avg = neutro ↔ ¬ (dec 0.2 < avg)%Qc ∧ ¬ (avg < - dec 0.2)%Qc).
Proof.
  assert ((dec 0.2 < avg)%Qc → ¬ (avg < - dec 0.2)%Qc) as Hexcl.
  { intros Hp Hn. apply (Qclt_not_le _ _ (Qclt_trans _ _ _ Hp Hn)). done. }
  unfold label_of.
  destruct (decide (dec 0.2 < avg)%Qc) as [Hp | Hp];
    [ rewrite bool_decide_true by done | rewrite bool_decide_false by done ];
    [ | destruct (decide (avg < - dec 0.2)%Qc) as [Hn | Hn];
        [ rewrite bool_decide_true by done
        | rewrite bool_decide_false by done ] ];
    repeat split; intros; try done; tauto.
Qed.

(** ** The scorer *)

Section Scorer.
Context {U : UnicodeData}.

(** The three exits of [analyze]. *)
Lemma analyze_no_tokens lex text ts :
  tokenize text = [] →
  analyze lex text ts =
    {| label := neutro; score := dec 0.0; confidence := dec 0.2;
       hits := 0; mentioned := false |}.
Proof. intros Hnil. unfold analyze. by rewrite Hnil. Qed.

Lemma analyze_no_hits lex text ts :
  tokenize text ≠ [] → (score_loop lex (tokenize text)).2 = 0 →
  analyze lex text ts =
    let m := target_mentioned (tokenize text) ts in
    {| label := neutro; score := dec 0.0;
       confidence := (dec 0.3 + (if m then dec 0.2 else dec 0.0))%Qc;
       hits := 0; mentioned := m |}.
Proof.
  intros Hne Hz. unfold analyze. rewrite bool_decide_true by done. simpl.
  destruct (score_loop lex (tokenize text)) as [s h]. simpl in Hz. subst h.
  by rewrite bool_decide_true.
Qed.

Lemma analyze_hits lex text ts :
  tokenize text ≠ [] → (score_loop lex (tokenize text)).2 ≠ 0 →
  analyze lex text ts =
    let m := target_mentioned (tokenize text) ts in
    let sh := score_loop lex (tokenize text) in
    let avg := (sh.1 / Qc_of_Z sh.2)%Qc in
    {| label := label_of avg; score := py_round avg 4;
       confidence := py_round (confidence_of avg m) 3;
       hits := sh.2; mentioned := m |}.
Proof.
  intros Hne Hnz. unfold analyze. rewrite bool_decide_true by done. simpl.
  destruct (score_loop lex (tokenize text)) as [s h]. simpl in *.
  by rewrite bool_decide_false.
Qed.

Lemma analyze_hits_inv lex text ts :
  hits (analyze lex text ts) ≠ 0 →
  tokenize text ≠ [] ∧ (score_loop lex (tokenize text)).2 ≠ 0.
Proof.
  intros Hh. split.
  - intros Hnil. by rewrite (analyze_no_tokens _ _ _ Hnil) in Hh.
  - intros Hz. destruct (decide (tokenize text = [])) as [Hnil | Hne].
    + by rewrite (analyze_no_tokens _ _ _ Hnil) in Hh.
    + by rewrite (analyze_no_hits _ _ _ Hne Hz) in Hh.
Qed.

Lemma analyze_hits_eq lex text ts :
  hits (analyze lex text ts) = (score_loop lex (tokenize text)).2.
Proof.
  destruct (decide (tokenize text = [])) as [Hnil | Hne].
  - rewrite (analyze_no_tokens _ _ _ Hnil), Hnil. reflexivity.
  - destruct (decide ((score_loop lex (tokenize text)).2 = 0)) as [Hz | Hnz].
    + by rewrite (analyze_no_hits _ _ _ Hne Hz).
    + by rewrite (analyze_hits _ _ _ Hne Hnz).
Qed.

End Scorer.

(** ** Negation scope *)

Section Negation.




Lemma contribution_polarized lex toks i t :
  _term_polarity lex t ≠ dec 0.0 →
  contribution lex toks i t =
    Some ((if negated lex toks i then _term_polarity lex t * -1
           else _term_polarity lex t) * modifier lex toks i)%Qc.
Proof. intros Hpol. unfold contribution. by rewrite bool_decide_false. Qed.

End Negation.

(** ** Mention of the target *)

Section Mention.
Context {U : UnicodeData}.

Lemma mention_loop_surname toks flat nts nt p :
  nt ∈ nts →
  last (filter (λ p, truthy p = true) (split_on 32 nt)) = Some p →
  p ∈ toks →
  mention_loop toks flat nts = true.
Proof.
  intros Hin Hlast Hp. induction nts as [| nt' nts IH]; [ by inversion Hin |].
  simpl. destruct (decide (nt' = nt)) as [-> | Hne].
  - destruct nt as [| c nt]; [ done |]. simpl.
    destruct (str_in (c :: nt) flat); [ done |].
    unfold last_slice. rewrite Hlast. simpl. unfold list_in.
    by rewrite bool_decide_true.
  - assert (nt ∈ nts) as Hin' by (inversion Hin; subst; done).
    rewrite (IH Hin'). by repeat case_match.
Qed.

Lemma target_mentioned_surname toks targets t p :
  t ∈ targets → surname t = Some p → p ∈ toks →
  target_mentioned toks (Some targets) = true.
Proof.
  intros Hin Hsur Hp. unfold surname in Hsur.
  destruct (truthy t) eqn:Ht; [ | done ].
  destruct targets as [| n ns]; [ by inversion Hin |].
  unfold target_mentioned.
  apply (mention_loop_surname _ _ _ (normalize t) p); [ | done | done ].
  apply list_elem_of_fmap. exists t. split; [ done |].
  apply list_elem_of_filter. done.
Qed.

End Mention.

(** ** The scorer: statements *)

(** C6. Zero hits imply a zero score: whatever the text and the target
    variants, a result of [analyze] with [hits = 0] has [score = 0.0]. *)
Theorem zero_hits_zero_score (U : UnicodeData) (lex : Lexicon) (text : pystr)
    (target_names : option (list pystr)) :
  hits (analyze lex text target_names) = 0 →
  score (analyze lex text target_names) = dec 0.0.
Proof.
  intros Hz. rewrite analyze_hits_eq in Hz.
  destruct (decide (tokenize text = [])) as [Hnil | Hne].
  - by rewrite (analyze_no_tokens _ _ _ Hnil).
  - by rewrite (analyze_no_hits _ _ _ Hne Hz).
Qed.

Lemma zero_hits_zero_score_witness :
  hits (analyze small_pt (py "o silva chegou") (Some [py "João Silva"])) = 0
  ∧ score (analyze small_pt (py "o silva chegou") (Some [py "João Silva"]))
    = dec 0.0.
Proof.
  split; [ reflexivity |].
  apply (zero_hits_zero_score latin1 small_pt (py "o silva chegou")
           (Some [py "João Silva"])).
  reflexivity.
Defined.

(** C7. A text without tokens gets the fixed neutral result, label
    [neutro], score 0, confidence 0.2, no hit, not mentioned, whatever
    target variants come with it; so does [analyze("", ["João Silva"])]. *)
Theorem no_tokens_neutral :
  (∀ (U : UnicodeData) (lex : Lexicon) (text : pystr)
     (target_names : option (list pystr)),
     tokenize text = [] →
     analyze lex text target_names =
       {| label := neutro; score := dec 0; confidence := dec 0.2;
          hits := 0; mentioned := false |})
  ∧ analyze small_pt (py "") (Some [py "João Silva"]) =
      {| label := neutro; score := dec 0; confidence := dec 0.2;
         hits := 0; mentioned := false |}.
Proof.
  assert (dec 0.0 = dec 0) as Hzero by (apply Qc_is_canon; reflexivity).
  split.
  - intros U lex text ts Hnil.
    rewrite (analyze_no_tokens _ _ _ Hnil). by rewrite Hzero.
  - rewrite (analyze_no_tokens (U := latin1)) by reflexivity. by rewrite Hzero.
Qed.

Lemma no_tokens_neutral_witness :
  tokenize (py "?!... --") = []
  ∧ analyze small_pt (py "?!... --") (Some [py "João Silva"; py "Silva"]) =
      {| label := neutro; score := dec 0; confidence := dec 0.2;
         hits := 0; mentioned := false |}.
Proof.
  split; [ reflexivity |].
  apply (proj1 no_tokens_neutral latin1). reflexivity.
Defined.

(** *** On binary64 *)

(** A float above 0.2 is not below -0.2: the two tests of the label select
    at most one branch. *)
Lemma thresholds_exclusive (x : float) :
  (0.2 <? x)%float = true → (x <? -0.2)%float = false.
Proof.
  rewrite !ltb_spec.
  remember (Prim2SF 0.2) as lo eqn:Hlo. vm_compute in Hlo.
  remember (Prim2SF (-0.2)) as hi eqn:Hhi. vm_compute in Hhi.
  subst lo hi.
  destruct (Prim2SF x) as [[] | [] | | [] m e];
    unfold SFltb, SFcompare; (reflexivity || discriminate).
Qed.

Lemma label_of_binary64 (avg : float) :
  (Binary64.label_of avg = positivo ↔ (0.2 <? avg)%float = true)
  ∧ (Binary64.label_of avg = negativo ↔ (avg <? -0.2)%float = true)
  ∧ (Binary64.label_of avg = neutro
     ↔ (0.2 <? avg)%float = false ∧ (avg <? -0.2)%float = false).
Proof.
  unfold Binary64.label_of.
  destruct (0.2 <? avg)%float eqn:Hhi.
  - rewrite (thresholds_exclusive avg Hhi). intuition congruence.
  - destruct (avg <? -0.2)%float; intuition congruence.
Qed.

(** With a hit, [analyze] takes its last exit. *)
Lemma analyze_binary64_hits (U : UnicodeData) (lex : Binary64.Lexicon)
    (text : pystr) (target_names : option (list pystr)) :
  let r := Binary64.analyze lex text target_names in
  let sh := Binary64.score_loop lex (tokenize text) in
  let avg := (sh.1 / Binary64.of_int sh.2)%float in
  Binary64.hits r ≠ 0 →
  r = {| Binary64.label := Binary64.label_of avg;
         Binary64.score := Binary64.py_round avg 4;
         Binary64.confidence :=
           Binary64.py_round
             (Binary64.confidence_of avg
                (target_mentioned (tokenize text) target_names)) 3;
         Binary64.hits := sh.2;
         Binary64.mentioned :=
           target_mentioned (tokenize text) target_names |}.
Proof.
  intros r sh avg. subst r avg sh. unfold Binary64.analyze.
  destruct (negb (bool_decide (tokenize text ≠ []))); [ done |].
  destruct (Binary64.score_loop lex (tokenize text)) as [score_sum hits].
  cbn [fst snd]. case_bool_decide; done.
Qed.

(** C4. Label and thresholds agree, on binary64: when [analyze] counts at
    least one hit, with [avg = score_sum / hits] as the code computes it
    (the sum of the loop divided by [hits] converted to a float), the label
    is [positivo] exactly when [avg > 0.2], [negativo] exactly when
    [avg < -0.2], and [neutro] exactly when neither comparison holds. *)
Theorem label_threshold_consistency (U : UnicodeData)
    (lex : Binary64.Lexicon) (text : pystr)
    (target_names : option (list pystr)) :
  let r := Binary64.analyze lex text target_names in
  let avg :=
    ((Binary64.score_loop lex (tokenize text)).1
     / Binary64.of_int (Binary64.hits r))%float in
  0 < Binary64.hits r →
  (Binary64.label r = positivo ↔ (0.2 <? avg)%float = true)
  ∧ (Binary64.label r = negativo ↔ (avg <? -0.2)%float = true)
  ∧ (Binary64.label r = neutro
     ↔ (0.2 <? avg)%float = false ∧ (avg <? -0.2)%float = false).
Proof.
  intros r avg Hpos. subst r avg.
  assert (Binary64.hits (Binary64.analyze lex text target_names) ≠ 0) as Hnz
    by lia.
  rewrite (analyze_binary64_hits U lex text target_names Hnz).
  cbn [Binary64.label Binary64.hits]. apply label_of_binary64.
Qed.

Lemma label_threshold_consistency_witness :
  let r := Binary64.analyze Binary64.small_pt (py "feliz seboso") None in
  let avg :=
    ((Binary64.score_loop Binary64.small_pt (tokenize (py "feliz seboso"))).1
     / Binary64.of_int (Binary64.hits r))%float in
  Binary64.hits r = 2 ∧ (avg <? -0.2)%float = true
  ∧ Binary64.label r = negativo.
Proof.
  split; [ vm_compute; reflexivity |]. split; [ vm_compute; reflexivity |].
  apply (label_threshold_consistency latin1 Binary64.small_pt
           (py "feliz seboso") None); vm_compute; reflexivity.
Defined.

(** C9. Mention never lowers confidence: for a text with at least one hit,
    analysing it with target variants among which is a name whose surname
    is one of the tokens marks the result as mentioned, and its confidence
    is at least the confidence of the analysis of the same text with any
    other target variants, or none. *)
Theorem mention_monotone_confidence (U : UnicodeData) (lex : Lexicon)
    (text : pystr) (without : option (list pystr)) (targets : list pystr)
    (t p : pystr) :
  0 < hits (analyze lex text without) →
  t ∈ targets → surname t = Some p → p ∈ tokenize text →
  mentioned (analyze lex text (Some targets)) = true
  ∧ (confidence (analyze lex text without)
     ≤ confidence (analyze lex text (Some targets)))%Qc.
Proof.
  intros Hpos Hin Hsur Hp.
  assert (hits (analyze lex text without) ≠ 0) as Hnz by lia.
  destruct (analyze_hits_inv _ _ _ Hnz) as [Hne Hloop].
  rewrite !(analyze_hits _ _ _ Hne Hloop). cbv zeta. cbn [confidence mentioned].
  rewrite (target_mentioned_surname _ _ _ _ Hin Hsur Hp).
  split; [ done |]. apply py_round_mono.
  destruct (target_mentioned (tokenize text) without).
  - apply Qcle_refl.
  - apply confidence_of_mention.
Qed.

Lemma mention_monotone_confidence_witness :
  let text := py "O Silva é bom e ruim" in
  confidence (analyze small_pt text None) = dec 0.6
  ∧ confidence (analyze small_pt text (Some [py "João Silva"])) = dec 0.75
  ∧ mentioned (analyze small_pt text (Some [py "João Silva"])) = true
  ∧ Qcle (confidence (analyze small_pt text None))
         (confidence (analyze small_pt text (Some [py "João Silva"]))).
Proof.
  split; [ apply Qc_is_canon; reflexivity |].
  split; [ apply Qc_is_canon; reflexivity |].
  apply (mention_monotone_confidence latin1 small_pt (py "O Silva é bom e ruim")
           None [py "João Silva"] (py "João Silva") (py "silva")).
  - reflexivity.
  - apply list_elem_of_here.
  - reflexivity.
  - vm_compute. apply list_elem_of_further, list_elem_of_here.
Defined.

(** ** The scoring loop and the negation window: statements *)

Lemma dec_zero : dec 0.0 = 0%Qc.
Proof. apply Qc_is_canon. reflexivity. Qed.

Lemma score_fold lex toks (its : list (Z * pystr)) : ∀ (s : Qc) (h : Z),
  fold_left (score_step lex toks) its (s, h) =
    ((s + foldr Qcplus (dec 0.0) (omap (λ it, contribution lex toks it.1 it.2) its))%Qc,
     h + Z.of_nat (length (omap (λ it, contribution lex toks it.1 it.2) its))).
Proof.
  rewrite dec_zero. induction its as [| it its IH]; intros s h; simpl.
  - f_equal; [ by rewrite Qcplus_0_r | lia ].
  - unfold score_step at 2.
    destruct (contribution lex toks it.1 it.2) as [c |]; simpl; rewrite IH.
    + f_equal; [ by rewrite Qcplus_assoc | unfold omap; lia ].
    + done.
Qed.

Lemma score_loop_contributions lex toks :
  score_loop lex toks =
    (foldr Qcplus (dec 0.0) (contributions lex toks),
     Z.of_nat (length (contributions lex toks))).
Proof.
  unfold score_loop, contributions. rewrite score_fold.
  f_equal. rewrite dec_zero. by rewrite Qcplus_0_l.
Qed.



(** C10. Polarity lookup prefers the positive mapping: a term listed in
    both mappings has the strength of its positive entry, and that is the
    polarity every iteration of the scoring loop works with; a term in
    neither mapping has polarity 0.0. *)
Theorem positive_entry_wins (lex : Lexicon) (term : pystr) :
  (∀ p n : Qc,
     pos lex !! term = Some p → neg lex !! term = Some n →
     _term_polarity lex term = p
     ∧ ∀ (toks : list pystr) (i : Z),
         p ≠ dec 0.0 →
         contribution lex toks i term =
           Some ((if negated lex toks i then p * -1 else p)
                 * modifier lex toks i)%Qc)
  ∧ (pos lex !! term = None → neg lex !! term = None →
     _term_polarity lex term = dec 0.0).
Proof.
  split.
  - intros p n Hp Hn.
    assert (_term_polarity lex term = p) as Hpol
      by (unfold _term_polarity; by rewrite Hp).
    split; [ done |]. intros toks i Hnz.
    rewrite contribution_polarized; rewrite Hpol; done.
  - intros Hp Hn. unfold _term_polarity. by rewrite Hp, Hn.
Qed.

Lemma positive_entry_wins_witness :
  let lex :=
    {| pos := dict [kv "bom" 1.0]; neg := dict [kv "bom" (-1.5)];
       negators := []; intensifiers := ∅; diminishers := ∅ |} in
  pos lex !! py "bom" = Some (dec 1.0) ∧ neg lex !! py "bom" = Some (dec (-1.5))
  ∧ _term_polarity lex (py "bom") = dec 1.0
  ∧ score (analyze lex (py "bom") None) = dec 1.0.
Proof.
  split; [ reflexivity |]. split; [ reflexivity |].
  split; [ | apply Qc_is_canon; reflexivity ].
  apply (proj1 (positive_entry_wins
                  {| pos := dict [kv "bom" 1.0]; neg := dict [kv "bom" (-1.5)];
                     negators := []; intensifiers := ∅; diminishers := ∅ |}
                  (py "bom")) (dec 1.0) (dec (-1.5)));
    reflexivity.
Defined.

(** ** Stance detection *)

Lemma starts_with_spec (p s : pystr) :
  starts_with p s = true ↔ ∃ rest, s = p ++ rest.
Proof.
  revert s. induction p as [| a p IH]; intros s; simpl.
  - split; [ intros _; by exists s | done ].
  - destruct s as [| b s].
    + split; [ done | intros [rest Hrest]; discriminate ].
    + rewrite andb_true_iff, N.eqb_eq, IH. split.
      * intros [-> [rest ->]]. by exists rest.
      * intros [rest Hrest]. injection Hrest as -> ->. split; [ done | by exists rest ].
Qed.

(** [str_in] is the substring test. *)
Lemma str_in_spec (p s : pystr) :
  str_in p s = true ↔ ∃ before after, s = before ++ p ++ after.
Proof.
  induction s as [| b s IH]; simpl; rewrite orb_true_iff, starts_with_spec.
  - split.
    + intros [[rest Hrest] | Hf]; [ | done ]. by exists [], rest.
    + intros (before & after & Hs). left.
      destruct before; [ by exists after | discriminate ].
  - rewrite IH. split.
    + intros [[rest Hrest] | (before & after & ->)].
      * by exists [], rest.
      * by exists (b :: before), after.
    + intros (before & after & Hs). destruct before as [| b' before].
      * left. by exists after.
      * right. injection Hs as -> ->. by exists before, after.
Qed.

Lemma existsb_elem_of {A} (f : A → bool) (l : list A) (x : A) :
  x ∈ l → f x = true → existsb f l = true.
Proof.
  intros Hin Hf. apply existsb_exists. exists x.
  split; [ by apply list_elem_of_In | done ].
Qed.

(** C8. Disagreement is checked first: a text whose normal form contains
    one of the disagreement phrases is classified [discorda], whether or
    not it also contains an agreement phrase.  "não concordo com a
    matéria" contains the agreement phrase "concordo" and is [discorda]. *)
Theorem disagreement_precedence :
  (∀ (U : UnicodeData) (text pat : pystr),
     pat ∈ disagree → str_in pat (normalize text) = true →
     _detect_news_stance text = Stance.discorda)
  ∧ str_in (py "concordo") (normalize (py "não concordo com a matéria")) = true
  ∧ py "concordo" ∈ agree
  ∧ _detect_news_stance (py "não concordo com a matéria") = Stance.discorda.
Proof.
  split; [ | split; [ reflexivity | split; [ | reflexivity ] ] ].
  - intros U text pat Hin Hsub. unfold _detect_news_stance.
    by rewrite (existsb_elem_of _ _ pat Hin Hsub).
  - apply (bool_decide_eq_true_1 _). reflexivity.
Qed.

Lemma disagreement_precedence_witness :
  _detect_news_stance (py "Isso é verdade? Fake news, procedente nada!")
  = Stance.discorda.
Proof.
  apply (proj1 disagreement_precedence latin1 _ (py "fake news")).
  - apply (bool_decide_eq_true_1 _). reflexivity.
  - reflexivity.
Defined.

(** ** The attribution cascade *)

Lemma clamp_min_max (x : Qc) :
  py_min (dec 0.5) (py_max (dec 0.25) x) = clamp x (dec 0.25) (dec 0.5).
Proof.
  unfold py_min, py_max, clamp.
  destruct (decide (dec 0.25 < x)%Qc) as [Hlo | Hlo];
    [ rewrite (bool_decide_true _ Hlo) | rewrite (bool_decide_false _ Hlo) ].
  - rewrite (bool_decide_false (x < dec 0.25)%Qc) by (intros Hc; qc_order).
    destruct (decide (x < dec 0.5)%Qc) as [Hhi | Hhi];
      [ rewrite (bool_decide_true _ Hhi) | rewrite (bool_decide_false _ Hhi) ].
    + by rewrite bool_decide_false by (intros Hc; qc_order).
    + destruct (decide (dec 0.5 < x)%Qc) as [Hgt | Hgt];
        [ by rewrite (bool_decide_true _ Hgt)
        | rewrite (bool_decide_false _ Hgt) ].
      apply Qc_is_canon. qc_order.
  - rewrite (bool_decide_true (dec 0.25 < dec 0.5)%Qc) by done.
    destruct (decide (x < dec 0.25)%Qc) as [Hlt | Hlt];
      [ by rewrite (bool_decide_true _ Hlt)
      | rewrite (bool_decide_false _ Hlt) ].
    rewrite bool_decide_false by (intros Hc; qc_order).
    apply Qc_is_canon. qc_order.
Qed.

Lemma determinate_test (r : SentimentResult) :
  bool_decide (0 < hits r) && polar (label r) = true ↔ determinate r.
Proof.
  unfold determinate. rewrite andb_true_iff, bool_decide_eq_true. done.
Qed.

Lemma derive_undetermined (c : SentimentResult) (a : option SentimentResult)
    (ref : bool) (stance : Stance.t) :
  ref = false ∨ a = None ∨ ¬ alignment_applies c a stance →
  _derive_final_label c a false ref stance = undetermined c.
Proof.
  intros Hcase. unfold _derive_final_label.
  destruct ref; [ | done ]. simpl negb. cbv iota.
  destruct a as [a |]; [ | done ].
  destruct (bool_decide (0 < hits a) && polar (label a)) eqn:Hdet; [ | done ].
  apply determinate_test in Hdet.
  assert (¬ alignment_applies c (Some a) stance) as Hno
    by (destruct Hcase as [? | [? | ?]]; done).
  destruct stance.
  - exfalso. apply Hno. exists a. repeat split; try apply Hdet. by left.
  - exfalso. apply Hno. exists a. repeat split; try apply Hdet. by left.
  - destruct (bool_decide (0 < hits c) && polar (label c)) eqn:Hc; [ | done ].
    apply determinate_test in Hc.
    exfalso. apply Hno. exists a. repeat split; try apply Hdet. by right.
Qed.

(** C5. The undetermined outcome.  Without a direct mention, when the
    comment does not refer to the article, or no article-level result
    exists, or neither alignment rule applies, the final label is [neutro],
    the confidence is [comment_confidence * 0.5] clamped to the interval
    from 0.25 to 0.5, and the origin is [indefinido]; a missing article
    result yields this value like the other cases. *)
Theorem undetermined_fallback (comment_res : SentimentResult)
    (article_res : option SentimentResult) (article_ref : bool)
    (stance : Stance.t) :
  article_ref = false ∨ article_res = None
  ∨ ¬ alignment_applies comment_res article_res stance →
  _derive_final_label comment_res article_res false article_ref stance =
    (neutro, clamp (confidence comment_res * dec 0.5)%Qc (dec 0.25) (dec 0.5),
     Origin.indefinido).
Proof.
  intros Hcase. rewrite (derive_undetermined _ _ _ _ Hcase).
  unfold undetermined. by rewrite clamp_min_max.
Qed.

Lemma undetermined_fallback_witness :
  let c := {| label := positivo; score := dec 1.5; confidence := dec 1.0;
              hits := 1; mentioned := false |} in
  _derive_final_label c None false true Stance.concorda =
    (neutro, dec 0.5, Origin.indefinido).
Proof.
  intros c.
  replace (dec 0.5) with (clamp (confidence c * dec 0.5)%Qc (dec 0.25) (dec 0.5))
    by (apply Qc_is_canon; reflexivity).
  apply (undetermined_fallback c None true Stance.concorda).
  right. left. reflexivity.
Defined.

(** C2. Alignment by explicit stance, with the confidence as claimed
    (unrounded), fails: for an article result with confidence 0.751 the
    cascade returns 0.9 where [min(1.0, 0.6 + 0.4 * 0.751)] is 0.9004. *)
Lemma stance_alignment_unrounded_counterexample :
  let a := {| Binary64.label := positivo; Binary64.score := 0.251;
              Binary64.confidence := 0.751; Binary64.hits := 3;
              Binary64.mentioned := false |} in
  let c := {| Binary64.label := neutro; Binary64.score := 0.0;
              Binary64.confidence := 0.3; Binary64.hits := 0;
              Binary64.mentioned := false |} in
  let final :=
    Binary64._derive_final_label c (Some a) false true Stance.concorda in
  0 < Binary64.hits a ∧ polar (Binary64.label a) = true
  ∧ final.1.2 = 0.9%float
  ∧ Binary64.py_min 1.0 (0.6 + 0.4 * Binary64.confidence a)%float
    = 0.9004%float
  ∧ final.1.2 ≠ Binary64.py_min 1.0 (0.6 + 0.4 * Binary64.confidence a)%float.
Proof.
  intros a c final.
  assert (final.1.2 = 0.9%float) as Hcode by (vm_compute; reflexivity).
  assert (Binary64.py_min 1.0 (0.6 + 0.4 * Binary64.confidence a)%float
          = 0.9004%float) as Hclaim by (vm_compute; reflexivity).
  split; [ reflexivity |]. split; [ reflexivity |].
  split; [ exact Hcode |]. split; [ exact Hclaim |].
  rewrite Hcode, Hclaim. intros Heq.
  apply (f_equal Prim2SF) in Heq. vm_compute in Heq. discriminate Heq.
Qed.

(** The same input on exact rationals. *)
Example stance_alignment_unrounded_exact :
  let a := {| label := positivo; score := dec 0.251; confidence := dec 0.751;
              hits := 3; mentioned := false |} in
  let c := {| label := neutro; score := dec 0.0; confidence := dec 0.3;
              hits := 0; mentioned := false |} in
  let final := _derive_final_label c (Some a) false true Stance.concorda in
  final.1.2 = dec 0.9
  ∧ py_min (dec 1.0) (dec 0.6 + dec 0.4 * confidence a)%Qc = dec 0.9004.
Proof. split; apply Qc_is_canon; reflexivity. Qed.

(** C2 (amended). Alignment by explicit stance, on binary64.  Without a
    direct mention, for a comment that refers to the article, an article
    result with [hits > 0] and a polar label, and a stance [concorda] or
    [discorda]: the final label is the label of the article for [concorda]
    and the opposite label for [discorda]; the final confidence is
    [round(min(1.0, 0.6 + 0.4 * article_confidence), 3)]; the origin is
    [alinhamento_noticia_stance].  With article confidence 0.8 the final
    confidence is 0.92. *)
Theorem stance_alignment (comment_res article_res : Binary64.SentimentResult)
    (stance : Stance.t) :
  0 < Binary64.hits article_res →
  polar (Binary64.label article_res) = true →
  stance = Stance.concorda ∨ stance = Stance.discorda →
  let final :=
    Binary64._derive_final_label comment_res (Some article_res) false true
      stance in
  final =
    (match stance with
     | Stance.concorda => Binary64.label article_res
     | _ => opposite (Binary64.label article_res)
     end,
     Binary64.py_round
       (Binary64.py_min 1.0
          (0.6 + 0.4 * Binary64.confidence article_res)%float) 3,
     Origin.alinhamento_noticia_stance)
  ∧ (Binary64.confidence article_res = 0.8%float → final.1.2 = 0.92%float).
Proof.
  intros Hhits Hpolar Hst final.
  assert (final =
    (match stance with
     | Stance.concorda => Binary64.label article_res
     | _ => opposite (Binary64.label article_res)
     end,
     Binary64.py_round
       (Binary64.py_min 1.0
          (0.6 + 0.4 * Binary64.confidence article_res)%float) 3,
     Origin.alinhamento_noticia_stance)) as Hfinal.
  { subst final. unfold Binary64._derive_final_label. simpl negb. cbv iota.
    rewrite (bool_decide_true _ Hhits), Hpolar. simpl andb. cbv iota.
    destruct Hst as [-> | ->]; [ done |].
    destruct (Binary64.label article_res); done. }
  split; [ done |].
  intros Hconf. rewrite Hfinal, Hconf. vm_compute. reflexivity.
Qed.

Lemma stance_alignment_witness :
  let a := {| Binary64.label := positivo; Binary64.score := 1.0;
              Binary64.confidence := 0.8; Binary64.hits := 3;
              Binary64.mentioned := false |} in
  let c := {| Binary64.label := neutro; Binary64.score := 0.0;
              Binary64.confidence := 0.3; Binary64.hits := 0;
              Binary64.mentioned := false |} in
  (Binary64._derive_final_label c (Some a) false true Stance.concorda).1.2
  = 0.92%float
  ∧ (Binary64._derive_final_label c (Some a) false true Stance.discorda).1.1
    = negativo.
Proof.
  intros a c. split.
  - apply (proj2 (stance_alignment c a Stance.concorda
                    ltac:(reflexivity) ltac:(reflexivity) ltac:(by left))).
    reflexivity.
  - rewrite (proj1 (stance_alignment c a Stance.discorda
                      ltac:(reflexivity) ltac:(reflexivity) ltac:(by right))).
    reflexivity.
Defined.

(** ** No operation of [analyze] raises *)

Section Safety.

Lemma enumerate_bound (toks : list pystr) (i : Z) (t : pystr) :
  (i, t) ∈ enumerate toks → 0 ≤ i < Z.of_nat (length toks).
Proof.
  unfold enumerate. intros Hin.
  apply list_elem_of_lookup in Hin as [k Hk].
  rewrite list_lookup_imap in Hk.
  destruct (toks !! k) as [t' |] eqn:Hlk; [ | done ].
  simpl in Hk. injection Hk as <- <-.
  apply lookup_lt_Some in Hlk. lia.
Qed.

Lemma getitem_item (toks : list pystr) (j : Z) :
  0 ≤ j < Z.of_nat (length toks) →
  Checked.getitem toks j = Some (item toks j).
Proof.
  intros Hj. unfold Checked.getitem, item. cbv zeta.
  rewrite bool_decide_true by lia.
  assert (Z.to_nat j < length toks)%nat as Hlt by lia.
  apply lookup_lt_is_Some_2 in Hlt. unfold pystr in *.
  destruct (toks !! Z.to_nat j) as [x |]; [ done | by destruct Hlt ].
Qed.

Lemma term_polarity_checked lex t :
  Checked._term_polarity lex t = Some (_term_polarity lex t).
Proof.
  unfold Checked._term_polarity, Checked.getkey, _term_polarity.
  destruct (pos lex !! t) as [p |]; [ reflexivity |].
  destruct (neg lex !! t) as [n |]; reflexivity.
Qed.

Lemma negation_scan_checked lex toks fuel : ∀ j,
  j < Z.of_nat (length toks) →
  Checked.negation_scan lex toks j fuel = Some (negation_scan lex toks j fuel).
Proof.
  induction fuel as [| fuel IH]; intros j Hj; simpl; [ done |].
  case_bool_decide as Hj0; [ | done ].
  rewrite getitem_item by lia. simpl.
  destruct (list_in (item toks j) (negators lex)); [ done |].
  destruct (list_in (item toks j) clause_breaks); [ done |].
  apply IH. lia.
Qed.

Lemma modifier_checked lex toks i :
  i - 1 < Z.of_nat (length toks) →
  Checked.modifier lex toks i = Some (modifier lex toks i).
Proof.
  intros Hi. unfold Checked.modifier, Checked.getkey, modifier.
  set (prev := if bool_decide (0 ≤ i - 1) then item toks (i - 1) else []).
  assert ((if bool_decide (0 ≤ i - 1) then Checked.getitem toks (i - 1)
           else Some []) = Some prev) as ->.
  { subst prev. case_bool_decide; [ | done ]. apply getitem_item. lia. }
  simpl.
  destruct (intensifiers lex !! prev) as [m |];
    destruct (diminishers lex !! prev) as [d |]; reflexivity.
Qed.

Lemma contribution_checked lex toks i t :
  i - 1 < Z.of_nat (length toks) →
  Checked.contribution lex toks i t = Some (contribution lex toks i t).
Proof.
  intros Hi. unfold Checked.contribution, contribution, negated.
  rewrite term_polarity_checked, modifier_checked by done.
  rewrite negation_scan_checked by lia.
  cbn [mbind option_bind]. by case_bool_decide.
Qed.

Lemma score_fold_checked lex toks (its : list (Z * pystr)) :
  (∀ it, it ∈ its → it.1 - 1 < Z.of_nat (length toks)) →
  ∀ acc,
    fold_left (Checked.score_step lex toks) its (Some acc) =
    Some (fold_left (score_step lex toks) its acc).
Proof.
  induction its as [| it its IH]; intros Hits acc; simpl; [ done |].
  rewrite contribution_checked by (apply Hits, list_elem_of_here).
  simpl. unfold score_step at 2.
  destruct (contribution lex toks it.1 it.2) as [c |];
    apply IH; intros it' Hin; apply Hits; by apply list_elem_of_further.
Qed.

Lemma score_loop_checked lex toks :
  Checked.score_loop lex toks = Some (score_loop lex toks).
Proof.
  apply score_fold_checked. intros [i t] Hin.
  apply enumerate_bound in Hin. simpl. lia.
Qed.

Lemma analyze_checked {U : UnicodeData} lex text target_names :
  Checked.analyze lex text target_names = Some (analyze lex text target_names).
Proof.
  unfold Checked.analyze, analyze.
  destruct (negb (bool_decide (tokenize text ≠ []))); [ done |].
  rewrite score_loop_checked. simpl.
  destruct (score_loop lex (tokenize text)) as [s h].
  unfold Checked.truediv. by case_bool_decide.
Qed.

End Safety.

(** ** Lexicon construction *)

(** C1. Rejection of an overlapping lexicon fails: a Lexicon whose positive
    and negative mappings both list "bom" is constructed, and holds the
    word in both mappings. *)
Lemma lexicon_overlap_counterexample :
  ∃ lex : Lexicon,
    Lexicon_init (dict [kv "bom" 1.0]) (dict [kv "bom" (-1.0)]) [] ∅ ∅
    = Some lex
    ∧ pos lex !! py "bom" = Some (dec 1.0)
    ∧ neg lex !! py "bom" = Some (dec (-1.0)).
Proof. eexists. split; [ reflexivity |]. split; reflexivity. Qed.

(** C1 (amended). Constructing a Lexicon checks nothing and never fails:
    whatever the mappings, also when the positive and the negative mapping
    share a word, the Lexicon is built and holds the mappings as given.
    The built-in lexicon [small_pt] has no word in both mappings.  No
    input is fatal within the core: in [analyze] no index, key lookup or
    division raises, whatever the lexicon, the text and the targets. *)
Theorem lexicon_construction_unchecked :
  (∀ (p n : gmap pystr Qc) (ngs : list pystr) (ints dims : gmap pystr Qc),
     Lexicon_init p n ngs ints dims =
       Some {| pos := p; neg := n; negators := ngs;
               intensifiers := ints; diminishers := dims |})
  ∧ (∀ w : pystr, pos small_pt !! w = None ∨ neg small_pt !! w = None)
  ∧ (∀ (U : UnicodeData) (lex : Lexicon) (text : pystr)
       (target_names : option (list pystr)),
       Checked.analyze lex text target_names
       = Some (analyze lex text target_names)).
Proof.
  split; [ done |]. split; [ | intros; apply analyze_checked ].
  intros w.
  assert (pos small_pt ##ₘ neg small_pt) as Hdisj.
  { apply map_disjoint_dom. apply (bool_decide_eq_true_1 _). vm_compute. reflexivity. }
  destruct (pos small_pt !! w) as [p |] eqn:Hp; [ right | by left ].
  by apply (map_disjoint_Some_l _ _ _ _ Hdisj Hp).
Qed.

(** * Further properties of the code *)

(** ** Tokens and normal forms *)

Lemma filter_all {A} (Q : A → Prop) `{∀ x, Decision (Q x)} (l : list A) :
  Forall Q l → filter Q l = l.
Proof.
  induction 1 as [| x l Hx _ IH]; [ done |].
  rewrite filter_cons_True by done. by rewrite IH.
Qed.

Section Runs.

Variable P : N → bool.

Lemma runs_from_fields (s : list N) : ∀ cur r : list N,
  Forall (λ c, P c = true) cur →
  r ∈ runs_from P s cur →
  r ≠ [] ∧ Forall (λ c, P c = true) r.
Proof.
  induction s as [| c s IH]; intros cur r Hcur Hin; simpl in Hin.
  - destruct cur as [| a cur]; simpl in Hin; [ by inversion Hin |].
    apply list_elem_of_singleton in Hin as ->. done.
  - destruct (P c) eqn:Hc.
    + apply (IH (cur ++ [c])); [ | done ].
      apply Forall_app. split; [ done | by apply Forall_singleton ].
    + apply elem_of_app in Hin as [Hin | Hin].
      * destruct cur as [| a cur]; simpl in Hin; [ by inversion Hin |].
        apply list_elem_of_singleton in Hin as ->. done.
      * by apply (IH [] r).
Qed.

Lemma runs_from_concat (s : list N) : ∀ cur : list N,
  Forall (λ c, P c = true) cur →
  concat (runs_from P s cur) = cur ++ filter (λ c, P c = true) s.
Proof.
  induction s as [| c s IH]; intros cur Hcur; cbn [runs_from].
  - destruct cur; simpl; by rewrite ?app_nil_r.
  - destruct (P c) eqn:Hc.
    + rewrite IH
        by (apply Forall_app; split; [ done | by apply Forall_singleton ]).
      rewrite filter_cons_True by done. by rewrite <- app_assoc.
    + rewrite concat_app, IH by done.
      rewrite filter_cons_False by (by rewrite Hc).
      destruct cur; simpl; by rewrite ?app_nil_r.
Qed.

Lemma runs_filter_truthy (s : pystr) :
  filter (λ t, truthy t = true) (runs P s) = runs P s.
Proof.
  apply filter_all. apply Forall_forall. intros r Hin.
  apply (runs_from_fields s [] r) in Hin as [Hne _]; [ | done ].
  by destruct r.
Qed.

End Runs.

(** X1. Every token is a non-empty string of word characters (characters
    matched by the class of [_WORD_RE]). *)
Theorem tokenize_word_tokens (U : UnicodeData) (text t : pystr) :
  t ∈ tokenize text →
  t ≠ [] ∧ ∀ c, c ∈ t → word_char c = true.
Proof.
  unfold tokenize. rewrite runs_filter_truthy. intros Hin.
  apply (runs_from_fields word_char _ [] t) in Hin as [Hne Hall]; [ | done ].
  split; [ done |]. by apply Forall_forall.
Qed.

Lemma tokenize_word_tokens_witness :
  py "joao" ∈ tokenize (py "São João!")
  ∧ py "joao" ≠ [] ∧ ∀ c, c ∈ py "joao" → word_char c = true.
Proof.
  assert (py "joao" ∈ tokenize (py "São João!")) as Hin
    by (apply (bool_decide_eq_true_1 _); reflexivity).
  split; [ exact Hin |].
  exact (tokenize_word_tokens latin1 (py "São João!") (py "joao") Hin).
Defined.

(** X2. Tokenizing loses nothing but separators: the tokens, concatenated,
    are the word characters of the accent-stripped, lower-cased text, in
    their order. *)
Theorem tokenize_keeps_word_chars (U : UnicodeData) (text : pystr) :
  concat (tokenize text)
  = filter (λ c, word_char c = true) (str_lower (_strip_accents text)).
Proof.
  unfold tokenize. rewrite runs_filter_truthy.
  unfold runs. by rewrite runs_from_concat.
Qed.

(** ** Range and consistency of the results of [analyze] *)

Section ScorerFacts.
Context {U : UnicodeData}.

Lemma contribution_is_Some lex toks i t :
  is_Some (contribution lex toks i t) ↔ _term_polarity lex t ≠ dec 0.0.
Proof.
  unfold contribution.
  case_bool_decide as Hpol; split; try done;
    try (by intros [? ?]); by eexists.
Qed.

Lemma contributions_length_from lex toks (l : list pystr) :
  ∀ g : nat → Z,
    length (omap (λ it, contribution lex toks it.1 it.2)
              (imap (λ i t, (g i, t)) l))
    = length (filter (λ t, _term_polarity lex t ≠ dec 0.0) l).
Proof.
  induction l as [| t l IH]; intros g; [ done |].
  rewrite imap_cons. cbn [omap list_omap fst snd].
  specialize (IH (g ∘ S)). unfold omap in IH.
  destruct (decide (_term_polarity lex t ≠ dec 0.0)) as [Hpol | Hpol].
  - rewrite filter_cons_True by done.
    destruct (proj2 (contribution_is_Some lex toks (g 0%nat) t) Hpol)
      as [c ->].
    simpl. f_equal. apply IH.
  - rewrite filter_cons_False by done.
    destruct (contribution lex toks (g 0%nat) t) as [c |] eqn:Hc.
    + exfalso. apply Hpol. apply (contribution_is_Some lex toks (g 0%nat) t).
      by eexists.
    + apply IH.
Qed.

Lemma round_half_even_Qeq (q1 q2 : Q) :
  (q1 == q2)%Q → round_half_even q1 = round_half_even q2.
Proof.
  intros Heq. apply Z.le_antisymm; apply round_half_even_mono; lra.
Qed.

Lemma round_half_even_Z (z : Z) : round_half_even (inject_Z z) = z.
Proof.
  unfold round_half_even. rewrite Qfloor_Z.
  destruct (Qcompare_spec (inject_Z z - inject_Z z) (1 # 2)) as [E | L | G];
    [ exfalso; lra | done | exfalso; lra ].
Qed.

(** Rounding at [n] decimals leaves a number with [n] decimals alone. *)
Lemma py_round_exact (z : Z) (n : nat) :
  py_round (Q2Qc (inject_Z z / inject_Z (10 ^ Z.of_nat n))) n
  = Q2Qc (inject_Z z / inject_Z (10 ^ Z.of_nat n)).
Proof.
  unfold py_round. apply Qc_is_canon. simpl this. rewrite !Qred_correct.
  pose proof (inject_pow10_pos n) as Hp.
  set (p := inject_Z (10 ^ Z.of_nat n)) in *.
  rewrite (round_half_even_Qeq _ (inject_Z z)), round_half_even_Z.
  - rewrite ?Qred_correct. reflexivity.
  - rewrite ?Qred_correct. field. intros Hz. rewrite Hz in Hp.
    by apply Qlt_irrefl in Hp.
Qed.

Lemma analyze_mentioned_eq lex text ts :
  mentioned (analyze lex text ts)
  = negb (bool_decide (tokenize text = []))
    && target_mentioned (tokenize text) ts.
Proof.
  destruct (decide (tokenize text = [])) as [Hnil | Hne].
  - rewrite (analyze_no_tokens _ _ _ Hnil). by rewrite bool_decide_true.
  - rewrite bool_decide_false by done.
    destruct (decide ((score_loop lex (tokenize text)).2 = 0)) as [Hz | Hnz].
    + by rewrite (analyze_no_hits _ _ _ Hne Hz).
    + by rewrite (analyze_hits _ _ _ Hne Hnz).
Qed.

End ScorerFacts.

Lemma confidence_of_range (avg : Qc) (m : bool) :
  (dec 0.5 ≤ confidence_of avg m ≤ dec 1.0)%Qc.
Proof.
  pose proof (Qcabs_nonneg avg) as Habs. unfold confidence_of.
  set (a := Qcabs avg) in *. clearbody a.
  assert (dec 0.5 ≤ py_min (dec 1.0) (dec 0.5 + py_min (dec 0.5) a)
          ≤ dec 1.0)%Qc as [Hlo Hhi].
  { split; [ | apply py_min_le_l ].
    apply py_min_glb; [ done |].
    rewrite <- (Qcplus_0_r (dec 0.5)) at 1.
    apply Qcplus_le_compat; [ apply Qcle_refl |].
    apply py_min_glb; done. }
  destruct m; [ | done ]. split; [ | apply py_min_le_l ].
  apply py_min_glb; [ done |].
  rewrite <- (Qcplus_0_r (dec 0.5)) at 1. by apply Qcplus_le_compat.
Qed.

Lemma analyze_confidence_bounds {U : UnicodeData} lex text ts :
  (dec 0.2 ≤ confidence (analyze lex text ts) ≤ dec 1.0)%Qc
  ∧ (0 < hits (analyze lex text ts) ∨ mentioned (analyze lex text ts) = true →
     (dec 0.5 ≤ confidence (analyze lex text ts))%Qc).
Proof.
  assert (py_round (dec 0.5) 3 = dec 0.5) as H05
    by (apply Qc_is_canon; reflexivity).
  assert (py_round (dec 1.0) 3 = dec 1.0) as H10
    by (apply Qc_is_canon; reflexivity).
  destruct (decide (tokenize text = [])) as [Hnil | Hne].
  { rewrite (analyze_no_tokens _ _ _ Hnil). simpl.
    split; [ done |]. intros [? | ?]; [ lia | done ]. }
  destruct (decide ((score_loop lex (tokenize text)).2 = 0)) as [Hz | Hnz].
  { rewrite (analyze_no_hits _ _ _ Hne Hz). cbv zeta. simpl.
    destruct (target_mentioned (tokenize text) ts).
    - split; [ done |]. intros _. done.
    - split; [ done |]. intros [? | ?]; [ lia | done ]. }
  rewrite (analyze_hits _ _ _ Hne Hnz). cbv zeta. cbn [confidence hits mentioned].
  destruct (confidence_of_range
              ((score_loop lex (tokenize text)).1
               / Qc_of_Z (score_loop lex (tokenize text)).2)%Qc
              (target_mentioned (tokenize text) ts)) as [Hlo Hhi].
  assert (dec 0.5 ≤ py_round (confidence_of
              ((score_loop lex (tokenize text)).1
               / Qc_of_Z (score_loop lex (tokenize text)).2)%Qc
              (target_mentioned (tokenize text) ts)) 3)%Qc as Hlo'
    by (rewrite <- H05; by apply py_round_mono).
  split; [ split | done ].
  - eapply Qcle_trans; [ | exact Hlo' ]. done.
  - rewrite <- H10. by apply py_round_mono.
Qed.

(** X3. [hits] counts the tokens whose polarity is not zero, so it lies
    between 0 and the number of tokens. *)
Theorem analyze_hits_count (U : UnicodeData) (lex : Lexicon) (text : pystr)
    (target_names : option (list pystr)) :
  let polarized :=
    filter (λ t, _term_polarity lex t ≠ dec 0.0) (tokenize text) in
  hits (analyze lex text target_names) = Z.of_nat (length polarized)
  ∧ 0 ≤ hits (analyze lex text target_names)
      ≤ Z.of_nat (length (tokenize text)).
Proof.
  intros polarized.
  assert (hits (analyze lex text target_names) = Z.of_nat (length polarized))
    as Hcount.
  { rewrite analyze_hits_eq, score_loop_contributions. simpl.
    f_equal. apply contributions_length_from. }
  split; [ done |]. rewrite Hcount.
  pose proof (length_filter (λ t, _term_polarity lex t ≠ dec 0.0)
                (tokenize text)) as Hle.
  fold polarized in Hle. lia.
Qed.

(** X4. The confidence of every result lies between 0.2 and 1.0; it is at
    least 0.5 as soon as the text has a hit or mentions the target. *)
Theorem analyze_confidence_range (U : UnicodeData) (lex : Lexicon)
    (text : pystr) (target_names : option (list pystr)) :
  let r := analyze lex text target_names in
  (dec 0.2 ≤ confidence r ≤ dec 1.0)%Qc
  ∧ (0 < hits r ∨ mentioned r = true → (dec 0.5 ≤ confidence r)%Qc).
Proof. intros r. apply analyze_confidence_bounds. Qed.

Lemma analyze_confidence_range_witness :
  let r := analyze small_pt (py "Silva, sem comentários") (Some [py "Silva"]) in
  mentioned r = true ∧ hits r = 0 ∧ Qcle (dec 0.5) (confidence r).
Proof.
  split; [ reflexivity |]. split; [ reflexivity |].
  apply (proj2 (analyze_confidence_range latin1 small_pt
                  (py "Silva, sem comentários") (Some [py "Silva"]))).
  right. reflexivity.
Defined.

(** X5. The reported score agrees with the label: a [positivo] result has
    a score of at least 0.2, a [negativo] result a score of at most -0.2,
    and a [neutro] result a score between -0.2 and 0.2. *)
Theorem analyze_label_score (U : UnicodeData) (lex : Lexicon)
    (text : pystr) (target_names : option (list pystr)) :
  let r := analyze lex text target_names in
  (label r = positivo → (dec 0.2 ≤ score r)%Qc)
  ∧ (label r = negativo → (score r ≤ - dec 0.2)%Qc)
  ∧ (label r = neutro → (- dec 0.2 ≤ score r ≤ dec 0.2)%Qc).
Proof.
  intros r. subst r.
  assert (py_round (dec 0.2) 4 = dec 0.2) as Hp
    by (apply Qc_is_canon; reflexivity).
  assert (py_round (- dec 0.2) 4 = (- dec 0.2)%Qc) as Hn
    by (apply Qc_is_canon; reflexivity).
  destruct (decide (tokenize text = [])) as [Hnil | Hne].
  { rewrite (analyze_no_tokens _ _ _ Hnil). simpl. done. }
  destruct (decide ((score_loop lex (tokenize text)).2 = 0)) as [Hz | Hnz].
  { rewrite (analyze_no_hits _ _ _ Hne Hz). cbv zeta. simpl. done. }
  rewrite (analyze_hits _ _ _ Hne Hnz). cbv zeta. cbn [label score].
  set (avg := ((score_loop lex (tokenize text)).1
               / Qc_of_Z (score_loop lex (tokenize text)).2)%Qc).
  destruct (label_of_spec avg) as (Hpos & Hneg & Hneu).
  split; [ | split ].
  - intros Hl. apply Hpos in Hl. rewrite <- Hp.
    by apply py_round_mono, Qclt_le_weak.
  - intros Hl. apply Hneg in Hl. rewrite <- Hn.
    by apply py_round_mono, Qclt_le_weak.
  - intros Hl. apply Hneu in Hl as [Hnp Hnn]. split.
    + rewrite <- Hn. by apply py_round_mono, Qcnot_lt_le.
    + rewrite <- Hp. by apply py_round_mono, Qcnot_lt_le.
Qed.

Lemma analyze_label_score_witness :
  let r := analyze small_pt (py "quase certo") None in
  label r = positivo ∧ score r = dec 0.56 ∧ Qcle (dec 0.2) (score r).
Proof.
  split; [ reflexivity |]. split; [ apply Qc_is_canon; reflexivity |].
  apply (proj1 (analyze_label_score latin1 small_pt (py "quase certo") None)).
  reflexivity.
Defined.

(** X6. Scoring and mention detection do not interfere: label, score and
    hits are the same whatever target variants are passed, and [mentioned]
    is the same whatever the lexicon. *)
Theorem analyze_independence (U : UnicodeData) (lex lex' : Lexicon)
    (text : pystr) (ts ts' : option (list pystr)) :
  label (analyze lex text ts) = label (analyze lex text ts')
  ∧ score (analyze lex text ts) = score (analyze lex text ts')
  ∧ hits (analyze lex text ts) = hits (analyze lex text ts')
  ∧ mentioned (analyze lex text ts) = mentioned (analyze lex' text ts).
Proof.
  split; [ | split; [ | split ] ];
    [ | | | by rewrite !analyze_mentioned_eq ];
    (destruct (decide (tokenize text = [])) as [Hnil | Hne];
     [ by rewrite !(analyze_no_tokens _ _ _ Hnil) |];
     destruct (decide ((score_loop lex (tokenize text)).2 = 0)) as [Hz | Hnz];
     [ by rewrite !(analyze_no_hits _ _ _ Hne Hz)
     | by rewrite !(analyze_hits _ _ _ Hne Hnz) ]).
Qed.

(** X7. The score has at most 4 decimals and the confidence at most 3:
    rounding them again changes nothing. *)
Theorem analyze_rounded (U : UnicodeData) (lex : Lexicon) (text : pystr)
    (target_names : option (list pystr)) :
  let r := analyze lex text target_names in
  py_round (score r) 4 = score r ∧ py_round (confidence r) 3 = confidence r.
Proof.
  intros r. subst r.
  assert (∀ x n, py_round (py_round x n) n = py_round x n) as Hidem.
  { intros x n. unfold py_round at 2 3. apply py_round_exact. }
  destruct (decide (tokenize text = [])) as [Hnil | Hne].
  { rewrite (analyze_no_tokens _ _ _ Hnil). simpl.
    split; apply Qc_is_canon; reflexivity. }
  destruct (decide ((score_loop lex (tokenize text)).2 = 0)) as [Hz | Hnz].
  { rewrite (analyze_no_hits _ _ _ Hne Hz). cbv zeta. simpl.
    destruct (target_mentioned (tokenize text) target_names);
      split; apply Qc_is_canon; reflexivity. }
  rewrite (analyze_hits _ _ _ Hne Hnz). cbv zeta. cbn [score confidence].
  split; apply Hidem.
Qed.

(** ** When the target counts as mentioned *)

Section MentionFacts.
Context {U : UnicodeData}.

Lemma mention_loop_iff (toks : list pystr) (flat : pystr)
    (nts : list pystr) :
  mention_loop toks flat nts = true ↔
  ∃ nt, nt ∈ nts ∧ nt ≠ []
        ∧ (str_in nt flat = true
           ∨ ∃ p, last (filter (λ p, truthy p = true) (split_on 32 nt)) = Some p
                  ∧ p ∈ toks).
Proof.
  induction nts as [| nt nts IH]; simpl.
  - split; [ done | intros (nt & Hin & _); by inversion Hin ].
  - destruct nt as [| c nt]; simpl negb; cbv iota.
    + rewrite IH. split.
      * intros (nt & Hin & Hrest). exists nt. split; [ by right | done ].
      * intros (nt & Hin & Hne & Hrest). exists nt.
        inversion Hin; subst; done.
    + destruct (str_in (c :: nt) flat) eqn:Hsub.
      { split; [ intros _ | done ].
        exists (c :: nt). split; [ by left |]. split; [ done | by left ]. }
      unfold last_slice.
      destruct (last (filter (λ p, truthy p = true) (split_on 32 (c :: nt))))
        as [p |] eqn:Hlast; simpl.
      * unfold list_in. rewrite orb_false_r. case_bool_decide as Hp.
        -- split; [ intros _ | done ].
           exists (c :: nt). split; [ by left |]. split; [ done |].
           right. by exists p.
        -- rewrite IH. split.
           ++ intros (nt' & Hin & Hrest). exists nt'. split; [ by right | done ].
           ++ intros (nt' & Hin & Hne & Hrest).
              inversion Hin as [| ? ? ? Hin']; subst; [ | by exists nt' ].
              destruct Hrest as [Hs | (p' & Hp' & Hin')]; [ congruence |].
              rewrite Hlast in Hp'. by injection Hp' as ->.
      * rewrite IH. split.
        ++ intros (nt' & Hin & Hrest). exists nt'. split; [ by right | done ].
        ++ intros (nt' & Hin & Hne & Hrest).
           inversion Hin as [| ? ? ? Hin']; subst; [ | by exists nt' ].
           destruct Hrest as [Hs | (p' & Hp' & Hin')]; [ congruence |].
           rewrite Hlast in Hp'. done.
Qed.

End MentionFacts.

(** X8. The target counts as mentioned exactly when the text has a token
    and some non-empty target variant with a non-empty normal form either
    occurs, normalised, inside the tokens joined by single spaces, or has
    its last word among the tokens.  Without target variants nothing is
    mentioned. *)
Theorem analyze_mentioned_iff (U : UnicodeData) (lex : Lexicon)
    (text : pystr) (target_names : option (list pystr)) :
  mentioned (analyze lex text target_names) = true ↔
  tokenize text ≠ []
  ∧ ∃ targets t,
      target_names = Some targets ∧ t ∈ targets ∧ t ≠ [] ∧ normalize t ≠ []
      ∧ (str_in (normalize t) (join space (tokenize text)) = true
         ∨ ∃ p, last (filter (λ p, truthy p = true)
                        (split_on 32 (normalize t))) = Some p
                ∧ p ∈ tokenize text).
Proof.
  rewrite analyze_mentioned_eq.
  rewrite andb_true_iff, negb_true_iff, bool_decide_eq_false.
  apply and_iff_compat_l.
  unfold target_mentioned.
  destruct target_names as [[| n ns] |].
  - split; [ done | intros (targets & t & Heq & Hin & _) ].
    injection Heq as <-. by inversion Hin.
  - rewrite mention_loop_iff. split.
    + intros (nt & Hin & Hne & Hcase).
      apply list_elem_of_fmap in Hin as (t & -> & Hin).
      apply list_elem_of_filter in Hin as [Ht Hin].
      exists (n :: ns), t. repeat split; try done. by destruct t.
    + intros (targets & t & Heq & Hin & Ht & Hne & Hcase).
      injection Heq as <-. exists (normalize t). split; [ | done ].
      apply list_elem_of_fmap. exists t. split; [ done |].
      apply list_elem_of_filter. split; [ by destruct t | done ].
  - split; [ done | intros (targets & t & Heq & _); done ].
Qed.

Lemma analyze_mentioned_iff_witness :
  mentioned (analyze small_pt (py "Viva o João  SILVA!")
               (Some [py "Joao Silva"])) = true.
Proof.
  apply (proj2 (analyze_mentioned_iff latin1 small_pt
                  (py "Viva o João  SILVA!") (Some [py "Joao Silva"]))).
  split; [ done |].
  exists [py "Joao Silva"], (py "Joao Silva").
  split; [ reflexivity |]. split; [ apply list_elem_of_here |].
  split; [ done |]. split; [ done |]. left. reflexivity.
Defined.

(** ** Reference and stance detection *)

Lemma existsb_occurs_any (pats : list pystr) (t : pystr) :
  existsb (λ pat, str_in pat t) pats = true ↔ occurs_any pats t.
Proof.
  unfold occurs_any. rewrite existsb_exists. split.
  - intros (pat & Hin & Hs). exists pat. by rewrite list_elem_of_In.
  - intros (pat & Hin & Hs). exists pat. by rewrite <- list_elem_of_In.
Qed.

Lemma str_in_trans (a b t : pystr) :
  str_in a b = true → str_in b t = true → str_in a t = true.
Proof.
  rewrite !str_in_spec.
  intros (b1 & b2 & ->) (t1 & t2 & ->).
  exists (t1 ++ b1), (b2 ++ t2). by rewrite <- !app_assoc.
Qed.

(** Phrases that contain another phrase of the tuple are redundant. *)
Lemma existsb_core (full core : list pystr) (t : pystr) :
  forallb (λ k, existsb (λ c, str_in c k) core) full = true →
  forallb (λ c, bool_decide (c ∈ full)) core = true →
  existsb (λ pat, str_in pat t) full = existsb (λ pat, str_in pat t) core.
Proof.
  intros Hcover Hsub. apply eq_true_iff_eq.
  rewrite !existsb_occurs_any. unfold occurs_any.
  rewrite forallb_forall in Hcover. rewrite forallb_forall in Hsub.
  split.
  - intros (k & Hk & Hs).
    apply list_elem_of_In, Hcover, existsb_exists in Hk as (c & Hc & Hck).
    exists c. split; [ by apply list_elem_of_In |].
    by apply (str_in_trans c k t).
  - intros (c & Hc & Hs). exists c. split; [ | done ].
    apply list_elem_of_In, Hsub in Hc. by apply bool_decide_eq_true in Hc.
Qed.

(** X9. The three outcomes of stance detection: [discorda] exactly when a
    disagreement phrase occurs in the normalised text; [concorda] exactly
    when no disagreement phrase but an agreement phrase occurs;
    [indefinido] exactly when neither occurs. *)
Theorem detect_news_stance_cases (U : UnicodeData) (text : pystr) :
  let t := normalize text in
  (_detect_news_stance text = Stance.discorda ↔ occurs_any disagree t)
  ∧ (_detect_news_stance text = Stance.concorda
     ↔ ¬ occurs_any disagree t ∧ occurs_any agree t)
  ∧ (_detect_news_stance text = Stance.indefinido
     ↔ ¬ occurs_any disagree t ∧ ¬ occurs_any agree t).
Proof.
  intros t. unfold _detect_news_stance. fold t.
  rewrite <- !existsb_occurs_any.
  destruct (existsb (λ pat, str_in pat t) disagree);
    destruct (existsb (λ pat, str_in pat t) agree);
    repeat split; intros; try done; try tauto;
    repeat match goal with H : _ ∧ _ |- _ => destruct H end; done.
Qed.

(** X10. A comment refers to the article exactly when its normal form
    contains one of "materia", "noticia", "reportagem", "no farol",
    "do farol": the nine longer phrases of [keys] never change the
    outcome. *)
Theorem has_article_reference_core (U : UnicodeData) (text : pystr) :
  _has_article_reference text = true ↔ occurs_any core_keys (normalize text).
Proof.
  unfold _has_article_reference.
  rewrite (existsb_core keys core_keys) by reflexivity.
  apply existsb_occurs_any.
Qed.

(** X11. Stance detection is decided by the phrases that contain no other
    phrase of their tuple: "e mentira", "isso e mentira", "fake news",
    "e verdade", "isso e verdade" and "esta certo" never change the
    outcome. *)
Theorem detect_news_stance_core (U : UnicodeData) (text : pystr) :
  let t := normalize text in
  _detect_news_stance text =
    if existsb (λ pat, str_in pat t) core_disagree then Stance.discorda
    else if existsb (λ pat, str_in pat t) core_agree then Stance.concorda
    else Stance.indefinido.
Proof.
  intros t. unfold _detect_news_stance. fold t.
  rewrite (existsb_core disagree core_disagree) by reflexivity.
  by rewrite (existsb_core agree core_agree) by reflexivity.
Qed.

(** ** The cascade: which rule fires, and what it returns *)

Lemma determinate_dec (r : SentimentResult) :
  determinate r ∨ ¬ determinate r.
Proof.
  destruct (bool_decide (0 < hits r) && polar (label r)) eqn:Hd.
  - left. by apply determinate_test.
  - right. intros Hr. apply determinate_test in Hr. congruence.
Qed.

Lemma derive_cases (c : SentimentResult) (a : option SentimentResult)
    (m ref : bool) (st : Stance.t) :
  let final := _derive_final_label c a m ref st in
  (m = true ∧ final.2 = Origin.comentario_direto)
  ∨ (m = false ∧ (ref = false ∨ ¬ alignment_applies c a st)
     ∧ final = undetermined c)
  ∨ (m = false ∧ ref = true ∧ st ≠ Stance.indefinido
     ∧ (∃ ar, a = Some ar ∧ determinate ar)
     ∧ final.2 = Origin.alinhamento_noticia_stance)
  ∨ (m = false ∧ ref = true ∧ st = Stance.indefinido
     ∧ (∃ ar, a = Some ar ∧ determinate ar) ∧ determinate c
     ∧ final.2 = Origin.alinhamento_noticia).
Proof.
  intros final. subst final.
  destruct m; [ by left |]. right.
  destruct ref; [ | left; split; [ done |]; split; [ by left |];
                    by apply derive_undetermined; left ].
  destruct a as [ar |];
    [ | left; split; [ done |]; split;
        [ right; by intros (? & ? & _)
        | by apply derive_undetermined; right; left ] ].
  destruct (determinate_dec ar) as [Har | Har];
    [ | left; split; [ done |];
        assert (¬ alignment_applies c (Some ar) st) as Hno
          by (intros (? & [= <-] & ? & _); done);
        split; [ by right | apply derive_undetermined; by right; right ] ].
  assert (st ≠ Stance.indefinido →
          (_derive_final_label c (Some ar) false true st).2
          = Origin.alinhamento_noticia_stance) as Hexplicit.
  { intros Hst. unfold _derive_final_label. simpl negb. cbv iota.
    rewrite (proj2 (determinate_test ar)) by done. by destruct st. }
  destruct st.
  - right. left. split; [ done |]. split; [ done |]. split; [ done |].
    split; [ by exists ar | by apply Hexplicit ].
  - right. left. split; [ done |]. split; [ done |]. split; [ done |].
    split; [ by exists ar | by apply Hexplicit ].
  - destruct (determinate_dec c) as [Hc | Hc].
    + right. right. split; [ done |]. split; [ done |]. split; [ done |].
      split; [ by exists ar |]. split; [ done |].
      unfold _derive_final_label. simpl negb. cbv iota.
      rewrite (proj2 (determinate_test ar)) by done.
      by rewrite (proj2 (determinate_test c)) by done.
    + left. split; [ done |].
      assert (¬ alignment_applies c (Some ar) Stance.indefinido) as Hno
        by (intros (? & _ & _ & [? | ?]); done).
      split; [ by right | apply derive_undetermined; by right; right ].
Qed.

#[local] Set Warnings "-clear-no-such-hyp".

(** X12. Which rule of the cascade fires.  The origin is
    [comentario_direto] exactly for a direct mention;
    [alinhamento_noticia_stance] exactly when, without mention, the comment
    refers to the article, the article result is determinate and the stance
    is explicit; [alinhamento_noticia] exactly when, without mention and
    with a reference, the stance is unclear and both the article and the
    comment results are determinate; [indefinido] in every other case. *)
Theorem derive_origin (comment_res : SentimentResult)
    (article_res : option SentimentResult) (mentioned article_ref : bool)
    (stance : Stance.t) :
  let origin :=
    (_derive_final_label comment_res article_res mentioned article_ref
       stance).2 in
  let article_determinate := ∃ a, article_res = Some a ∧ determinate a in
  (origin = Origin.comentario_direto ↔ mentioned = true)
  ∧ (origin = Origin.alinhamento_noticia_stance
     ↔ mentioned = false ∧ article_ref = true ∧ article_determinate
       ∧ stance ≠ Stance.indefinido)
  ∧ (origin = Origin.alinhamento_noticia
     ↔ mentioned = false ∧ article_ref = true ∧ article_determinate
       ∧ stance = Stance.indefinido ∧ determinate comment_res)
  ∧ (origin = Origin.indefinido
     ↔ mentioned = false
       ∧ (article_ref = false
          ∨ ¬ alignment_applies comment_res article_res stance)).
Proof.
  intros origin article_determinate. subst origin article_determinate.
  destruct (derive_cases comment_res article_res mentioned article_ref stance)
    as [(Hm & Ho) | [(Hm & Hcase & Ho) | [(Hm & Hr & Hst & Ha & Ho)
                                          | (Hm & Hr & Hst & Ha & Hc & Ho)]]];
    rewrite Ho; subst; unfold alignment_applies in *; simpl.
  - naive_solver.
  - naive_solver.
  - destruct Ha as (a & -> & Ha). naive_solver.
  - destruct Ha as (a & -> & Ha). naive_solver.
Qed.

Lemma derive_stance_eq (c a : SentimentResult) (st : Stance.t) :
  determinate a → st ≠ Stance.indefinido →
  _derive_final_label c (Some a) false true st
  = (match st with
     | Stance.concorda => label a
     | _ => opposite (label a)
     end,
     py_round (py_min (dec 1.0) (dec 0.6 + dec 0.4 * confidence a)%Qc) 3,
     Origin.alinhamento_noticia_stance).
Proof.
  intros Ha Hst. unfold _derive_final_label. simpl negb. cbv iota.
  rewrite (proj2 (determinate_test a)) by done.
  destruct Ha as [_ Ha]. destruct st; [ done | | done ].
  by destruct (label a).
Qed.

Lemma derive_alignment_eq (c a : SentimentResult) :
  determinate a → determinate c →
  _derive_final_label c (Some a) false true Stance.indefinido
  = (if bool_decide (label c = label a) then positivo else negativo,
     py_round
       (py_min (dec 1.0)
          (dec 0.5 + (confidence a + confidence c) / dec 2)%Qc) 3,
     Origin.alinhamento_noticia).
Proof.
  intros Ha Hc. unfold _derive_final_label. simpl negb. cbv iota.
  rewrite (proj2 (determinate_test a)) by done.
  rewrite (proj2 (determinate_test c)) by done.
  destruct Ha as [_ Ha], Hc as [_ Hc].
  destruct (label a), (label c); done.
Qed.

Lemma py_max_ge_l (a b : Qc) : (a ≤ py_max a b)%Qc.
Proof.
  unfold py_max. case_bool_decide; [ by apply Qclt_le_weak | apply Qcle_refl ].
Qed.

Lemma undetermined_range (c : SentimentResult) :
  (dec 0.25 ≤ (undetermined c).1.2 ≤ dec 0.5)%Qc.
Proof.
  unfold undetermined. simpl. split; [ | apply py_min_le_l ].
  apply py_min_glb; [ done | apply py_max_ge_l ].
Qed.

Lemma py_round_min_one (x : Qc) : (py_round (py_min (dec 1.0) x) 3 ≤ dec 1.0)%Qc.
Proof.
  assert (py_round (dec 1.0) 3 = dec 1.0) as H10
    by (apply Qc_is_canon; reflexivity).
  rewrite <- H10 at 2. apply py_round_mono, py_min_le_l.
Qed.

(** X13. Alignment without an explicit stance, on binary64.  Without
    mention, for a comment that refers to the article, an unclear stance,
    and determinate article and comment results: the final label is
    [positivo] when the two labels are equal and [negativo] when they
    differ; the confidence is
    [round(min(1.0, 0.5 + (article_confidence + comment_confidence) / 2), 3)];
    the origin is [alinhamento_noticia]. *)
Theorem sentiment_alignment
    (comment_res article_res : Binary64.SentimentResult) :
  Binary64.determinate article_res → Binary64.determinate comment_res →
  Binary64._derive_final_label comment_res (Some article_res) false true
    Stance.indefinido
  = (if bool_decide (Binary64.label comment_res = Binary64.label article_res)
     then positivo else negativo,
     Binary64.py_round
       (Binary64.py_min 1.0
          (0.5
           + (Binary64.confidence article_res
              + Binary64.confidence comment_res) / 2)%float) 3,
     Origin.alinhamento_noticia).
Proof.
  intros [Ha Hpa] [Hc Hpc]. unfold Binary64._derive_final_label.
  simpl negb. cbv iota.
  rewrite (bool_decide_true _ Ha), Hpa, (bool_decide_true _ Hc), Hpc.
  simpl andb. cbv iota.
  destruct (Binary64.label article_res), (Binary64.label comment_res);
    done.
Qed.

Lemma sentiment_alignment_witness :
  let c := {| Binary64.label := negativo; Binary64.score := -1.2;
              Binary64.confidence := 0.201; Binary64.hits := 1;
              Binary64.mentioned := false |} in
  let a := {| Binary64.label := negativo; Binary64.score := -2.0;
              Binary64.confidence := 0.2; Binary64.hits := 2;
              Binary64.mentioned := true |} in
  Binary64._derive_final_label c (Some a) false true Stance.indefinido
  = (positivo, 0.701%float, Origin.alinhamento_noticia).
Proof.
  intros c a.
  rewrite (sentiment_alignment c a); [ reflexivity | | ]; split; done.
Defined.

(** X14. What each origin guarantees.  An [indefinido] result is [neutro]
    with a confidence between 0.25 and 0.5, whatever the inputs; a result
    of either alignment rule has a polar label and a confidence of at most
    1.0; a [comentario_direto] result repeats the label and the confidence
    of the comment. *)
Theorem derive_origin_guarantees (comment_res : SentimentResult)
    (article_res : option SentimentResult) (mentioned article_ref : bool)
    (stance : Stance.t) :
  let final :=
    _derive_final_label comment_res article_res mentioned article_ref stance in
  (final.2 = Origin.indefinido →
   final.1.1 = neutro ∧ (dec 0.25 ≤ final.1.2 ≤ dec 0.5)%Qc)
  ∧ (final.2 = Origin.alinhamento_noticia_stance
     ∨ final.2 = Origin.alinhamento_noticia →
     polar final.1.1 = true ∧ (final.1.2 ≤ dec 1.0)%Qc)
  ∧ (final.2 = Origin.comentario_direto →
     final.1.1 = label comment_res ∧ final.1.2 = confidence comment_res).
Proof.
  intros final. subst final.
  destruct (derive_cases comment_res article_res mentioned article_ref stance)
    as [(-> & Ho) | [(-> & Hcase & Ho) | [(-> & -> & Hst & Ha & Ho)
                                          | (-> & -> & -> & Ha & Hc & Ho)]]].
  - simpl. split; [ done | split; [ by intros [? | ?] | done ] ].
  - rewrite Ho. split; [ | split; [ by intros [? | ?] | done ] ].
    intros _. split; [ done | apply undetermined_range ].
  - destruct Ha as (a & -> & Ha). rewrite (derive_stance_eq _ _ _ Ha Hst).
    cbn [fst snd]. split; [ done |]. split; [ | done ].
    intros _. split; [ | apply py_round_min_one ].
    destruct Ha as [_ Ha]. destruct stance, (label a); done.
  - destruct Ha as (a & -> & Ha). rewrite (derive_alignment_eq _ _ Ha Hc).
    cbn [fst snd]. split; [ done |]. split; [ | done ].
    intros _. split; [ by case_bool_decide | apply py_round_min_one ].
Qed.

Lemma derive_origin_guarantees_witness :
  let c := {| label := positivo; score := dec 1.0; confidence := dec 1.0;
              hits := 1; mentioned := false |} in
  let a := {| label := neutro; score := dec 0.1; confidence := dec 0.6;
              hits := 2; mentioned := true |} in
  let final := _derive_final_label c (Some a) false true Stance.concorda in
  final.2 = Origin.indefinido ∧ final.1.1 = neutro
  ∧ Qcle (dec 0.25) final.1.2 ∧ Qcle final.1.2 (dec 0.5).
Proof.
  intros c a final. split; [ reflexivity |].
  destruct (proj1 (derive_origin_guarantees c (Some a) false true
                     Stance.concorda) eq_refl) as (Hl & Hlo & Hhi).
  done.
Defined.

(** X15. Disagreement mirrors agreement: when the stance rule applies, the
    result for [discorda] is the result for [concorda] with the opposite
    label, the same confidence and the same origin. *)
Theorem stance_mirror (comment_res article_res : SentimentResult) :
  determinate article_res →
  let agrees :=
    _derive_final_label comment_res (Some article_res) false true
      Stance.concorda in
  let disagrees :=
    _derive_final_label comment_res (Some article_res) false true
      Stance.discorda in
  disagrees = (opposite agrees.1.1, agrees.1.2, agrees.2)
  ∧ agrees.1.1 = opposite disagrees.1.1.
Proof.
  intros Ha agrees disagrees. subst agrees disagrees.
  rewrite !(derive_stance_eq _ _ _ Ha) by done. cbn [fst snd].
  split; [ done |]. destruct Ha as [_ Ha]. by destruct (label article_res).
Qed.

Lemma stance_mirror_witness :
  let c := {| label := neutro; score := dec 0.0; confidence := dec 0.3;
              hits := 0; mentioned := false |} in
  let a := {| label := negativo; score := dec (-2.0); confidence := dec 1.0;
              hits := 2; mentioned := true |} in
  (_derive_final_label c (Some a) false true Stance.discorda).1.1 = positivo.
Proof.
  intros c a.
  rewrite (proj1 (stance_mirror c a ltac:(split; done))). reflexivity.
Defined.

(** ** The rows of the report *)

Section PipelineFacts.
Context {U : UnicodeData}.

Lemma article_map_fold lex (rows : list ArticleRow) :
  ∀ (m : gmap (pystr * Z) SentimentResult) (k : pystr * Z),
    fold_left
      (λ art_res row,
         <[(a_artigo_url row, a_id_pessoa row) := article_result lex row]>
           art_res) rows m !! k
    = match last (filter (λ row, (a_artigo_url row, a_id_pessoa row) = k) rows)
      with
      | Some row => Some (article_result lex row)
      | None => m !! k
      end.
Proof.
  induction rows as [| row rows IH]; intros m k; [ done |].
  cbn [fold_left]. rewrite IH.
  destruct (decide ((a_artigo_url row, a_id_pessoa row) = k)) as [Hk | Hk].
  - rewrite filter_cons_True by done.
    destruct (filter (λ row, (a_artigo_url row, a_id_pessoa row) = k) rows)
      as [| r rs] eqn:Hf.
    + simpl. rewrite <- Hk. apply lookup_insert_eq.
    + rewrite last_cons_cons.
      destruct (last (r :: rs)) eqn:Hl; [ done |].
      by apply last_None in Hl.
  - rewrite filter_cons_False by done.
    destruct (last (filter (λ row, (a_artigo_url row, a_id_pessoa row) = k)
                      rows)); [ done |].
    by apply lookup_insert_ne.
Qed.

End PipelineFacts.

(** X16. The article map answers with the result of the last fetched row
    of the (article, person) pair, and has no entry for a pair without a
    row. *)
Theorem article_map_lookup (U : UnicodeData) (lex : Lexicon)
    (rows : list ArticleRow) (url : pystr) (id : Z) :
  _compute_article_sentiments lex rows !! (url, id)
  = article_result lex
      <$> last (filter (λ row, (a_artigo_url row, a_id_pessoa row) = (url, id))
                  rows).
Proof.
  unfold _compute_article_sentiments. rewrite article_map_fold.
  by destruct (last _).
Qed.

Lemma article_map_value {U : UnicodeData} lex (rows : list ArticleRow)
    (k : pystr * Z) (a : SentimentResult) :
  _compute_article_sentiments lex rows !! k = Some a →
  ∃ row, row ∈ rows ∧ a = article_result lex row.
Proof.
  unfold _compute_article_sentiments. rewrite article_map_fold.
  destruct (last (filter (λ row, (a_artigo_url row, a_id_pessoa row) = k) rows))
    as [row |] eqn:Hlast; [ | done ].
  intros [= <-]. exists row. split; [ | done ].
  apply last_Some_elem_of in Hlast.
  by apply list_elem_of_filter in Hlast as [_ ?].
Qed.

Lemma stance_confidence_floor (x : Qc) :
  (0 ≤ x)%Qc →
  (dec 0.6 ≤ py_round (py_min (dec 1.0) (dec 0.6 + dec 0.4 * x)%Qc) 3)%Qc.
Proof.
  intros Hx.
  assert (py_round (dec 0.6) 3 = dec 0.6) as H06
    by (apply Qc_is_canon; reflexivity).
  rewrite <- H06 at 1. apply py_round_mono, py_min_glb; [ done |].
  rewrite <- (Qcplus_0_r (dec 0.6)) at 1.
  apply Qcplus_le_compat; [ apply Qcle_refl |].
  rewrite <- (Qcmult_0_l x). by apply Qcmult_le_compat_r.
Qed.

Lemma alignment_confidence_floor (x y : Qc) :
  (0 ≤ x)%Qc → (0 ≤ y)%Qc →
  (dec 0.5
   ≤ py_round (py_min (dec 1.0) (dec 0.5 + (x + y) / dec 2)%Qc) 3)%Qc.
Proof.
  intros Hx Hy.
  assert (py_round (dec 0.5) 3 = dec 0.5) as H05
    by (apply Qc_is_canon; reflexivity).
  rewrite <- H05 at 1. apply py_round_mono, py_min_glb; [ done |].
  rewrite <- (Qcplus_0_r (dec 0.5)) at 1.
  apply Qcplus_le_compat; [ apply Qcle_refl |].
  unfold Qcdiv. rewrite <- (Qcmult_0_l (/ dec 2)).
  apply Qcmult_le_compat_r; [ | done ].
  rewrite <- (Qcplus_0_r 0). by apply Qcplus_le_compat.
Qed.

(** X17. Every line of the report has a final confidence between 0.25
    and 1.0, whatever the lexicon, the article rows and the comment. *)
Theorem attribution_confidence_range (U : UnicodeData) (lex : Lexicon)
    (articles : list ArticleRow) (row : CommentRow) :
  let line :=
    comment_attribution lex (_compute_article_sentiments lex articles) row in
  (dec 0.25 ≤ (r_final line).1.2 ≤ dec 1.0)%Qc.
Proof.
  intros line. subst line. unfold comment_attribution. cbn [r_final].
  set (res := analyze lex (or_empty (c_conteudo row))
                (Some (target_variants (c_nome_pessoa row)))).
  set (art := _compute_article_sentiments lex articles
                !! (c_artigo_url row, c_id_pessoa row)).
  set (rf := _has_article_reference (or_empty (c_conteudo row))).
  set (st := _detect_news_stance (or_empty (c_conteudo row))).
  destruct (analyze_confidence_bounds lex (or_empty (c_conteudo row))
              (Some (target_variants (c_nome_pessoa row))))
    as [[Hlo Hhi] Hmention]. fold res in Hlo, Hhi, Hmention.
  assert (dec 0.25 ≤ dec 0.5)%Qc as H25 by done.
  assert (dec 0.5 ≤ dec 1.0)%Qc as H51 by done.
  assert (dec 0.25 ≤ dec 0.6)%Qc as H26 by done.
  assert (0 ≤ dec 0.2)%Qc as H02 by done.
  destruct (derive_cases res art (mentioned res) rf st)
    as [(Hm & _) | [(Hm & _ & Ho) | [(Hm & Hr & Hst & Ha & _)
                                     | (Hm & Hr & Hst & Ha & Hc & _)]]].
  - rewrite Hm.
    change (_derive_final_label res art true rf st)
      with (label res, confidence res, Origin.comentario_direto).
    cbn [fst snd]. split; [ | exact Hhi ].
    eapply Qcle_trans; [ exact H25 | apply Hmention; by right ].
  - rewrite Ho. destruct (undetermined_range res) as [Hulo Huhi].
    split; [ exact Hulo | eapply Qcle_trans; [ exact Huhi | exact H51 ] ].
  - destruct Ha as (a & Hart & Ha). rewrite Hm, Hr, Hart.
    rewrite (derive_stance_eq _ _ _ Ha Hst). cbn [fst snd].
    split; [ | apply py_round_min_one ].
    apply article_map_value in Hart as (arow & _ & ->).
    eapply Qcle_trans; [ exact H26 | apply stance_confidence_floor ].
    eapply Qcle_trans; [ exact H02 | apply (analyze_confidence_bounds lex) ].
  - destruct Ha as (a & Hart & Ha). rewrite Hm, Hr, Hst, Hart.
    rewrite (derive_alignment_eq _ _ Ha Hc). cbn [fst snd].
    split; [ | apply py_round_min_one ].
    apply article_map_value in Hart as (arow & _ & ->).
    eapply Qcle_trans; [ exact H25 | apply alignment_confidence_floor ].
    + eapply Qcle_trans; [ exact H02 | apply (analyze_confidence_bounds lex) ].
    + eapply Qcle_trans; [ exact H02 | exact Hlo ].
Qed.

(** X18. A comment that names the person by surname is attributed
    directly: when the surname of the person is one of the tokens of the
    comment, the line carries the label and the confidence of the comment
    itself with origin [comentario_direto], whatever the article, the
    reference and the stance. *)
Theorem surname_direct_attribution (U : UnicodeData) (lex : Lexicon)
    (article_map : gmap (pystr * Z) SentimentResult) (row : CommentRow)
    (p : pystr) :
  surname (c_nome_pessoa row) = Some p →
  p ∈ tokenize (or_empty (c_conteudo row)) →
  let line := comment_attribution lex article_map row in
  mentioned (r_res line) = true
  ∧ r_final line
    = (label (r_res line), confidence (r_res line), Origin.comentario_direto).
Proof.
  intros Hsur Hp line. subst line. unfold comment_attribution.
  cbn [r_res r_final].
  assert (mentioned (analyze lex (or_empty (c_conteudo row))
                       (Some (target_variants (c_nome_pessoa row)))) = true)
    as Hm.
  { rewrite analyze_mentioned_eq.
    rewrite bool_decide_false by (intros Hnil; rewrite Hnil in Hp; by inversion Hp).
    apply (target_mentioned_surname _ _ (c_nome_pessoa row) p); [ | done | done ].
    unfold target_variants. destruct (last _); apply list_elem_of_here. }
  rewrite Hm. done.
Qed.

Lemma surname_direct_attribution_witness :
  let row := {| c_id_pessoa := 7; c_nome_pessoa := py "João Silva";
                c_artigo_url := py "https://exemplo/a1";
                c_conteudo := Some (py "O Silva é corrupto, essa matéria é verdade") |} in
  (r_final (comment_attribution small_pt ∅ row)).2 = Origin.comentario_direto
  ∧ (r_final (comment_attribution small_pt ∅ row)).1.1 = negativo.
Proof.
  intros row.
  rewrite (proj2 (surname_direct_attribution latin1 small_pt ∅ row (py "silva")
                    eq_refl
                    ltac:(apply (bool_decide_eq_true_1 _); reflexivity))).
  split; reflexivity.
Defined.

(** X19. Without an analysed article nothing is aligned: a comment whose
    (article, person) pair has no article row gets no article result, and
    its origin is [comentario_direto] or [indefinido]. *)
Theorem no_article_no_alignment (U : UnicodeData) (lex : Lexicon)
    (articles : list ArticleRow) (row : CommentRow) :
  (∀ arow, arow ∈ articles →
     (a_artigo_url arow, a_id_pessoa arow)
     ≠ (c_artigo_url row, c_id_pessoa row)) →
  let line :=
    comment_attribution lex (_compute_article_sentiments lex articles) row in
  r_art_res line = None
  ∧ ((r_final line).2 = Origin.comentario_direto
     ∨ (r_final line).2 = Origin.indefinido).
Proof.
  intros Hnone line. subst line. unfold comment_attribution.
  cbn [r_art_res r_final].
  assert (_compute_article_sentiments lex articles
            !! (c_artigo_url row, c_id_pessoa row) = None) as Hmiss.
  { destruct (_compute_article_sentiments lex articles
                !! (c_artigo_url row, c_id_pessoa row)) as [a |] eqn:Hl;
      [ | done ].
    exfalso. unfold _compute_article_sentiments in Hl.
    rewrite article_map_fold in Hl.
    destruct (last (filter _ articles)) as [arow |] eqn:Hlast; [ | done ].
    apply last_Some_elem_of, list_elem_of_filter in Hlast as [Hk Hin].
    by apply (Hnone arow). }
  rewrite Hmiss. split; [ done |].
  destruct (mentioned _); [ by left | right ].
  by rewrite derive_undetermined by (right; by left).
Qed.

Lemma no_article_no_alignment_witness :
  let row := {| c_id_pessoa := 7; c_nome_pessoa := py "João Silva";
                c_artigo_url := py "https://exemplo/a1";
                c_conteudo := Some (py "Concordo com a matéria") |} in
  let line :=
    comment_attribution small_pt (_compute_article_sentiments small_pt [])
      row in
  r_art_res line = None
  ∧ ((r_final line).2 = Origin.comentario_direto
     ∨ (r_final line).2 = Origin.indefinido).
Proof.
  intros row.
  apply (no_article_no_alignment latin1 small_pt [] row).
  intros arow Hin. by inversion Hin.
Defined.

(** ** Aggregation by person *)

Section AggregateFacts.

Import Aggregate.

Implicit Types (counts : list (PersonKey * Counter)) (rows : list CsvRow).

Lemma count_row_fields (row : CsvRow) (d : Counter) :
  let b2z (b : bool) := if b then 1 else 0 in
  total (count_row row d) = total d + 1
  ∧ pos (count_row row d) = pos d + b2z (labelled "positivo" row)
  ∧ neg (count_row row d) = neg d + b2z (labelled "negativo" row)
  ∧ neu (count_row row d)
    = neu d + b2z (negb (labelled "positivo" row)
                   && negb (labelled "negativo" row))
  ∧ mention (count_row row d) = mention d + b2z (flagged row).
Proof.
  intros b2z. unfold count_row, labelled, flagged. fold (row_label row).
  destruct (decide (row_label row = Some (py "positivo"))) as [Hp | Hp].
  - rewrite (bool_decide_true _ Hp).
    rewrite (bool_decide_false (row_label row = Some (py "negativo")))
      by (rewrite Hp; done).
    case_bool_decide; simpl; repeat split; lia.
  - rewrite (bool_decide_false _ Hp).
    repeat case_bool_decide; simpl; repeat split; lia.
Qed.

Lemma counts_get_update key (f : Counter → Counter) counts k :
  counts_get k (update key f counts)
  = if bool_decide (k = key)
    then Some (f (default zero (counts_get key counts)))
    else counts_get k counts.
Proof.
  induction counts as [| [k' d'] counts IH]; simpl.
  - destruct (decide (k = key)) as [-> | Hne].
    + by rewrite !bool_decide_true.
    + rewrite (bool_decide_false (k = key)) by done.
      by rewrite bool_decide_false by done.
  - destruct (decide (k' = key)) as [-> | Hk'].
    + rewrite (bool_decide_true (key = key)) by done. simpl.
      destruct (decide (k = key)) as [-> | Hne].
      * by rewrite !bool_decide_true.
      * rewrite (bool_decide_false (k = key)) by done.
        by rewrite (bool_decide_false (key = k)) by done.
    + rewrite (bool_decide_false (k' = key)) by done. simpl. rewrite IH.
      destruct (decide (k' = k)) as [-> | Hkk].
      * rewrite (bool_decide_true (k = k)) by done.
        by rewrite (bool_decide_false (k = key)) by done.
      * by rewrite (bool_decide_false (k' = k)) by done.
Qed.

Lemma update_keys key (f : Counter → Counter) counts :
  (update key f counts).*1
  = if decide (key ∈ counts.*1) then counts.*1 else counts.*1 ++ [key].
Proof.
  induction counts as [| [k' d'] counts IH].
  - rewrite decide_False; [ done | by inversion 1 ].
  - cbn [update]. destruct (decide (k' = key)) as [-> | Hk'].
    + rewrite (bool_decide_true (key = key)) by done.
      rewrite decide_True by (rewrite fmap_cons; apply list_elem_of_here).
      by rewrite !fmap_cons.
    + rewrite (bool_decide_false (k' = key)) by done.
      rewrite !fmap_cons, IH. cbn [fst].
      destruct (decide (key ∈ counts.*1)) as [Hin | Hin].
      * by rewrite decide_True by (by apply list_elem_of_further).
      * rewrite decide_False; [ done |].
        inversion 1; subst; done.
Qed.

Lemma update_NoDup key (f : Counter → Counter) counts :
  NoDup counts.*1 → NoDup (update key f counts).*1.
Proof.
  intros Hnd. rewrite update_keys. case_decide as Hin; [ done |].
  apply NoDup_app. split; [ done |]. split; [ | apply NoDup_singleton ].
  intros k Hk Hk'. apply list_elem_of_singleton in Hk' as ->. done.
Qed.

Lemma counts_get_elem_of counts k d :
  NoDup counts.*1 → ((k, d) ∈ counts ↔ counts_get k counts = Some d).
Proof.
  induction counts as [| [k' d'] counts IH]; simpl; intros Hnd.
  - split; [ by inversion 1 | done ].
  - apply NoDup_cons in Hnd as [Hnotin Hnd].
    destruct (decide (k' = k)) as [-> | Hne].
    + rewrite bool_decide_true by done. split.
      * inversion 1 as [| ? ? ? Hin]; subst; [ done |].
        exfalso. apply Hnotin. apply list_elem_of_fmap. by exists (k, d).
      * intros [= ->]. apply list_elem_of_here.
    + rewrite bool_decide_false by done. rewrite <- (IH Hnd). split.
      * inversion 1; subst; done.
      * apply list_elem_of_further.
Qed.

Lemma count_fold_None rows : fold_left count_step rows None = None.
Proof. induction rows as [| row rows IH]; [ done | exact IH ]. Qed.

Lemma count_step_Some counts row :
  count_step (Some counts) row
  = key ← row_key row; Some (update key (count_row row) counts).
Proof.
  unfold count_step, row_key. simpl.
  destruct (row !! py "id_pessoa") as [pid |]; [ | done ]. simpl.
  by destruct (row !! py "nome_pessoa") as [pname |].
Qed.

(** The loop, seen from one key: the lines of the key, folded in order. *)
Lemma count_fold_get rows : ∀ c0 c k,
  fold_left count_step rows (Some c0) = Some c →
  counts_get k c
  = match filter (λ row, row_key row = Some k) rows with
    | [] => counts_get k c0
    | l => Some (fold_left (λ d row, count_row row d) l
                   (default zero (counts_get k c0)))
    end.
Proof.
  induction rows as [| row rows IH]; intros c0 c k Hfold.
  - injection Hfold as <-. reflexivity.
  - cbn [fold_left] in Hfold. rewrite count_step_Some in Hfold.
    destruct (row_key row) as [key |] eqn:Hkey;
      [ | cbn [mbind option_bind] in Hfold;
          by rewrite count_fold_None in Hfold ].
    cbn [mbind option_bind] in Hfold.
    rewrite (IH _ _ k Hfold), counts_get_update.
    destruct (decide (key = k)) as [-> | Hne].
    + rewrite filter_cons_True by exact Hkey.
      rewrite (bool_decide_true (k = k)) by reflexivity.
      destruct (filter (λ row, row_key row = Some k) rows); reflexivity.
    + rewrite filter_cons_False by (rewrite Hkey; congruence).
      rewrite (bool_decide_false (k = key)) by congruence.
      reflexivity.
Qed.

Lemma count_fold_NoDup rows : ∀ c0 c,
  fold_left count_step rows (Some c0) = Some c →
  NoDup c0.*1 → NoDup c.*1.
Proof.
  induction rows as [| row rows IH]; intros c0 c Hfold Hnd.
  - by injection Hfold as <-.
  - cbn [fold_left] in Hfold. rewrite count_step_Some in Hfold.
    destruct (row_key row) as [key |];
      [ | simpl in Hfold; by rewrite count_fold_None in Hfold ].
    simpl in Hfold. apply (IH _ _ Hfold). by apply update_NoDup.
Qed.

Lemma tally_fields (l : list CsvRow) : ∀ d0,
  let d := fold_left (λ d row, count_row row d) l d0 in
  let n (P : CsvRow → bool) :=
    Z.of_nat (length (filter (λ row, P row = true) l)) in
  total d = total d0 + Z.of_nat (length l)
  ∧ pos d = pos d0 + n (labelled "positivo")
  ∧ neg d = neg d0 + n (labelled "negativo")
  ∧ neu d = neu d0 + n (λ row, negb (labelled "positivo" row)
                              && negb (labelled "negativo" row))
  ∧ mention d = mention d0 + n flagged.
Proof.
  induction l as [| row l IH]; intros d0; cbn zeta.
  - simpl. repeat split; lia.
  - cbn [fold_left].
    destruct (IH (count_row row d0)) as (Ht & Hp & Hn & Hu & Hm).
    destruct (count_row_fields row d0) as (Ht0 & Hp0 & Hn0 & Hu0 & Hm0).
    rewrite Ht, Hp, Hn, Hu, Hm, Ht0, Hp0, Hn0, Hu0, Hm0.
    rewrite !filter_cons.
    repeat split; repeat case_decide;
      repeat match goal with
             | H : ?b = true |- _ => rewrite H
             | H : ¬ (?b = true) |- _ => apply not_true_is_false in H; rewrite H
             end; simpl length; lia.
Qed.

Lemma tally_balance (l : list CsvRow) : ∀ d0,
  let d := fold_left (λ d row, count_row row d) l d0 in
  pos d + neg d + neu d
  = pos d0 + neg d0 + neu d0 + Z.of_nat (length l)
  ∧ mention d0 ≤ mention d ≤ mention d0 + Z.of_nat (length l).
Proof.
  induction l as [| row l IH]; intros d0; cbn zeta.
  - simpl. lia.
  - cbn [fold_left]. destruct (IH (count_row row d0)) as (Hsum & Hm).
    destruct (count_row_fields row d0) as (_ & Hp0 & Hn0 & Hu0 & Hm0).
    assert (labelled "positivo" row = true →
            labelled "negativo" row = false) as Hexcl.
    { unfold labelled. intros Hp%bool_decide_eq_true.
      apply bool_decide_eq_false. by rewrite Hp. }
    rewrite Hp0, Hn0, Hu0 in Hsum. rewrite Hm0 in Hm.
    destruct (labelled "positivo" row) eqn:Hp;
      [ rewrite (Hexcl eq_refl) in Hsum | ];
      destruct (labelled "negativo" row), (flagged row);
      simpl in Hsum, Hm; simpl length; lia.
Qed.

Lemma counts_get_keys counts k :
  k ∈ counts.*1 ↔ is_Some (counts_get k counts).
Proof.
  induction counts as [| [k' d'] counts IH]; simpl.
  - split; [ by inversion 1 | by intros [? ?] ].
  - destruct (decide (k' = k)) as [-> | Hne].
    + rewrite bool_decide_true by done.
      split; [ by eexists | intros _; apply list_elem_of_here ].
    + rewrite bool_decide_false by done. rewrite <- IH. split.
      * inversion 1; subst; done.
      * apply list_elem_of_further.
Qed.

Lemma sum_totals_update key (f : Counter → Counter) counts :
  (∀ d, total (f d) = total d + 1) →
  sum_totals (update key f counts) = sum_totals counts + 1.
Proof.
  intros Hf. induction counts as [| [k' d'] counts IH]; simpl.
  - rewrite Hf. simpl. lia.
  - case_bool_decide; simpl; [ rewrite Hf | rewrite IH ]; lia.
Qed.

Lemma count_fold_sum rows : ∀ c0 c,
  fold_left count_step rows (Some c0) = Some c →
  sum_totals c = sum_totals c0 + Z.of_nat (length rows).
Proof.
  induction rows as [| row rows IH]; intros c0 c Hfold.
  - injection Hfold as <-. simpl. lia.
  - cbn [fold_left] in Hfold. rewrite count_step_Some in Hfold.
    destruct (row_key row) as [key |];
      [ | simpl in Hfold; by rewrite count_fold_None in Hfold ].
    simpl in Hfold. rewrite (IH _ _ Hfold), sum_totals_update.
    + simpl length. lia.
    + intros d. apply count_row_fields.
Qed.

Lemma count_fold_result rows : ∀ c0,
  fold_left count_step rows (Some c0) = None
  ↔ ∃ row, row ∈ rows ∧ row_key row = None.
Proof.
  induction rows as [| row rows IH]; intros c0.
  - split; [ done | intros (row & Hin & _); by inversion Hin ].
  - cbn [fold_left]. rewrite count_step_Some.
    destruct (row_key row) as [key |] eqn:Hkey; simpl.
    + rewrite IH. split.
      * intros (r & Hin & Hr). exists r. split; [ by right | done ].
      * intros (r & Hin & Hr). exists r. split; [ | done ].
        inversion Hin; subst; [ congruence | done ].
    + rewrite count_fold_None. split; [ intros _ | done ].
      exists row. split; [ by left | done ].
Qed.

Lemma count_rows_entry rows counts k d :
  count_rows rows = Some counts → (k, d) ∈ counts →
  let l := filter (λ row, row_key row = Some k) rows in
  l ≠ [] ∧ d = fold_left (λ d row, count_row row d) l zero.
Proof.
  intros Hrun Hin l. subst l.
  assert (NoDup counts.*1) as Hnd
    by (apply (count_fold_NoDup rows [] counts Hrun); constructor).
  apply (counts_get_elem_of _ _ _ Hnd) in Hin.
  rewrite (count_fold_get rows [] counts k Hrun) in Hin.
  destruct (filter (λ row, row_key row = Some k) rows) as [| r l];
    [ done |].
  split; [ done |]. by injection Hin as <-.
Qed.

End AggregateFacts.

(** X20. What the counters hold.  After the counting loop, the entry of a
    person counts the lines of that person: [total] all of them, [pos] and
    [neg] those labelled "positivo" and "negativo" (by [sentimento_final],
    else [sentimento], else "neutro"), [neu] all the others, and [mention]
    those whose [alvo_mencionado] is "1". *)
Theorem aggregate_tally (rows : list Aggregate.CsvRow)
    (counts : list (Aggregate.PersonKey * Aggregate.Counter))
    (k : Aggregate.PersonKey) (d : Aggregate.Counter) :
  Aggregate.count_rows rows = Some counts → (k, d) ∈ counts →
  Aggregate.total d = lines_of k (λ _, true) rows
  ∧ Aggregate.pos d = lines_of k (labelled "positivo") rows
  ∧ Aggregate.neg d = lines_of k (labelled "negativo") rows
  ∧ Aggregate.neu d
    = lines_of k (λ row, negb (labelled "positivo" row)
                         && negb (labelled "negativo" row)) rows
  ∧ Aggregate.mention d = lines_of k flagged rows.
Proof.
  intros Hrun Hin.
  destruct (count_rows_entry rows counts k d Hrun Hin) as [_ ->].
  destruct (tally_fields (filter (λ row, row_key row = Some k) rows)
              Aggregate.zero) as (Ht & Hp & Hn & Hu & Hm).
  unfold lines_of. rewrite <- !list_filter_filter.
  rewrite Ht, Hp, Hn, Hu, Hm. simpl.
  rewrite (filter_all (λ row : Aggregate.CsvRow, true = true))
    by (apply Forall_forall; done).
  done.
Qed.

Lemma aggregate_tally_witness :
  let line (pid lab flag : string) : Aggregate.CsvRow :=
    list_to_map [ (py "id_pessoa", Some (py pid));
                  (py "nome_pessoa", Some (py "Ana"));
                  (py "sentimento_final", Some (py lab));
                  (py "alvo_mencionado", Some (py flag)) ] in
  let rows := [ line "1" "positivo" "1"; line "2" "neutro" "0";
                line "1" "negativo" "0"; line "1" "" "1" ]%string in
  let ana := (Some (py "1"), Some (py "Ana")) in
  let d := {| Aggregate.pos := 1; Aggregate.neg := 1; Aggregate.neu := 1;
              Aggregate.total := 3; Aggregate.mention := 2 |} in
  Aggregate.total d = lines_of ana (λ _, true) rows
  ∧ Aggregate.pos d = lines_of ana (labelled "positivo") rows.
Proof.
  intros line rows ana d.
  destruct (aggregate_tally rows
              [ (ana, d);
                ((Some (py "2"), Some (py "Ana")),
                 {| Aggregate.pos := 0; Aggregate.neg := 0; Aggregate.neu := 1;
                    Aggregate.total := 1; Aggregate.mention := 0 |}) ]
              ana d eq_refl ltac:(apply list_elem_of_here))
    as (Ht & Hp & _).
  split; [ exact Ht | exact Hp ].
Defined.

(** X21. One entry per person.  After the counting loop no person has two
    entries, the persons with an entry are exactly those of the lines, and
    the totals add up to the number of lines. *)
Theorem aggregate_people (rows : list Aggregate.CsvRow)
    (counts : list (Aggregate.PersonKey * Aggregate.Counter)) :
  Aggregate.count_rows rows = Some counts →
  NoDup counts.*1
  ∧ (∀ k, k ∈ counts.*1 ↔ ∃ row, row ∈ rows ∧ row_key row = Some k)
  ∧ sum_totals counts = Z.of_nat (length rows).
Proof.
  intros Hrun. split; [ | split ].
  - apply (count_fold_NoDup rows [] counts Hrun). constructor.
  - intros k. rewrite counts_get_keys.
    rewrite (count_fold_get rows [] counts k Hrun). split.
    + destruct (filter (λ row, row_key row = Some k) rows) as [| r l] eqn:Hf;
        [ by intros [? ?] | intros _ ].
      assert (r ∈ filter (λ row, row_key row = Some k) rows) as Hr
        by (rewrite Hf; apply list_elem_of_here).
      apply list_elem_of_filter in Hr as [? ?]. by exists r.
    + intros (row & Hin & Hkey).
      assert (row ∈ filter (λ row, row_key row = Some k) rows) as Hr
        by (by apply list_elem_of_filter).
      destruct (filter (λ row, row_key row = Some k) rows);
        [ by inversion Hr | by eexists ].
  - by rewrite (count_fold_sum rows [] counts Hrun).
Qed.

Lemma aggregate_people_witness :
  let line (pid : string) : Aggregate.CsvRow :=
    list_to_map [ (py "id_pessoa", Some (py pid));
                  (py "nome_pessoa", Some (py "Ana")) ] in
  ∃ counts,
    Aggregate.count_rows [ line "1"; line "2"; line "1" ]%string = Some counts
    ∧ sum_totals counts = 3.
Proof.
  intros line. eexists. split; [ reflexivity |].
  apply (aggregate_people [ line "1"; line "2"; line "1" ]%string _ eq_refl).
Defined.

(** X22. The counting loop fails exactly when some line lacks the column
    [id_pessoa] or the column [nome_pessoa]; other columns may be missing
    or empty. *)
Theorem aggregate_key_error (rows : list Aggregate.CsvRow) :
  Aggregate.count_rows rows = None
  ↔ ∃ row, row ∈ rows
           ∧ (row !! py "id_pessoa" = None ∨ row !! py "nome_pessoa" = None).
Proof.
  unfold Aggregate.count_rows. rewrite count_fold_result.
  split; intros (row & Hin & Hrow); exists row; (split; [ done |]);
    unfold row_key in *;
    destruct (row !! py "id_pessoa"), (row !! py "nome_pessoa");
    simpl in *; try done; try (by left); try (by right);
    by destruct Hrow.
Qed.

(** X23. The counters of a person balance: for every entry the counting
    loop produces, [total] is at least 1, the counts [pos], [neg] and
    [neu] are not negative and add up to [total], and [mention] lies
    between 0 and [total]. *)
Theorem aggregate_balance (rows : list Aggregate.CsvRow)
    (counts : list (Aggregate.PersonKey * Aggregate.Counter))
    (k : Aggregate.PersonKey) (d : Aggregate.Counter) :
  Aggregate.count_rows rows = Some counts → (k, d) ∈ counts →
  1 ≤ Aggregate.total d
  ∧ 0 ≤ Aggregate.pos d ∧ 0 ≤ Aggregate.neg d ∧ 0 ≤ Aggregate.neu d
  ∧ Aggregate.pos d + Aggregate.neg d + Aggregate.neu d = Aggregate.total d
  ∧ 0 ≤ Aggregate.mention d ≤ Aggregate.total d.
Proof.
  intros Hrun Hin.
  destruct (count_rows_entry rows counts k d Hrun Hin) as [Hne ->].
  set (l := filter (λ row, row_key row = Some k) rows) in *.
  destruct (tally_fields l Aggregate.zero) as (Ht & Hp & Hn & Hu & _).
  destruct (tally_balance l Aggregate.zero) as (Hsum & Hm).
  set (d := fold_left (λ d row, Aggregate.count_row row d) l Aggregate.zero)
    in *.
  simpl in Ht, Hp, Hn, Hu, Hsum, Hm. clearbody d.
  assert (1 ≤ Aggregate.total d) as Htot
    by (rewrite Ht; destruct l; [ done | simpl length; lia ]).
  lia.
Qed.

Lemma aggregate_balance_witness :
  let line (lab : string) : Aggregate.CsvRow :=
    list_to_map [ (py "id_pessoa", Some (py "1"));
                  (py "nome_pessoa", Some (py "Ana"));
                  (py "sentimento_final", Some (py lab)) ] in
  let d := {| Aggregate.pos := 1; Aggregate.neg := 0; Aggregate.neu := 2;
              Aggregate.total := 3; Aggregate.mention := 0 |} in
  Aggregate.pos d + Aggregate.neg d + Aggregate.neu d = Aggregate.total d.
Proof.
  intros line d.
  apply (aggregate_balance
           [ line "positivo"; line "neutro"; line "outro" ]%string
           [ ((Some (py "1"), Some (py "Ana")), d) ]
           (Some (py "1"), Some (py "Ana")) d eq_refl
           ltac:(apply list_elem_of_here)).
Defined.

(** ** Locality of the modifiers *)

Lemma negation_scan_local lex (toks toks' : list pystr) fuel : ∀ j,
  (∀ m, j - Z.of_nat fuel < m ≤ j → 0 ≤ m → item toks m = item toks' m) →
  negation_scan lex toks j fuel = negation_scan lex toks' j fuel.
Proof.
  induction fuel as [| fuel IH]; intros j Hsame; [ done |].
  simpl. case_bool_decide as Hj; [ | done ].
  rewrite <- (Hsame j) by lia.
  destruct (list_in (item toks j) (negators lex)); [ done |].
  destruct (list_in (item toks j) clause_breaks); [ done |].
  apply IH. intros m Hm Hm0. apply Hsame; lia.
Qed.

(** X24. Only the three tokens before a polarized token can change what it
    contributes: in two token lists that agree on the positions [i-3],
    [i-2] and [i-1], the token [t] at position [i] contributes the same. *)
Theorem contribution_local (lex : Lexicon) (toks toks' : list pystr)
    (i : Z) (t : pystr) :
  (∀ m, i - 3 ≤ m < i → 0 ≤ m → item toks m = item toks' m) →
  contribution lex toks i t = contribution lex toks' i t.
Proof.
  intros Hsame.
  assert (modifier lex toks i = modifier lex toks' i) as Hmod.
  { unfold modifier. case_bool_decide as Hprev; [ | done ].
    by rewrite (Hsame (i - 1)) by lia. }
  assert (negated lex toks i = negated lex toks' i) as Hneg.
  { unfold negated. apply negation_scan_local.
    intros m Hm Hm0. apply Hsame; unfold window in Hm; lia. }
  unfold contribution. by rewrite Hmod, Hneg.
Qed.

Lemma contribution_local_witness :
  contribution small_pt (map py ["ele"; "nao"; "e"; "muito"; "bom"]%string) 4
    (py "bom")
  = contribution small_pt
      (map py ["jamais"; "nao"; "e"; "muito"; "bom"; "mas"; "caro"]%string) 4
      (py "bom").
Proof.
  apply contribution_local. intros m Hm Hm0.
  assert (m = 1 ∨ m = 2 ∨ m = 3) as [-> | [-> | ->]] by lia; reflexivity.
Defined.

(** ** Empty comments *)

(** X25. A comment that is [NULL], empty or without any token is never
    attributed: provided the comment does not refer to the article, its
    line is [neutro] with confidence 0.25 and origin [indefinido], and the
    comment itself is reported with confidence 0.2 and no hit. *)
Theorem empty_comment_line (U : UnicodeData) (lex : Lexicon)
    (article_map : gmap (pystr * Z) SentimentResult) (row : CommentRow) :
  tokenize (or_empty (c_conteudo row)) = [] →
  _has_article_reference (or_empty (c_conteudo row)) = false →
  let line := comment_attribution lex article_map row in
  r_res line
  = {| label := neutro; score := dec 0.0; confidence := dec 0.2;
       hits := 0; mentioned := false |}
  ∧ r_final line = (neutro, dec 0.25, Origin.indefinido).
Proof.
  intros Hnil Href line. subst line. unfold comment_attribution.
  cbn [r_res r_final]. rewrite Href, (analyze_no_tokens _ _ _ Hnil).
  split; [ done |]. cbn [mentioned].
  rewrite derive_undetermined by (by left).
  unfold undetermined. cbn [confidence].
  assert (py_min (dec 0.5) (py_max (dec 0.25) (dec 0.2 * dec 0.5)%Qc)
          = dec 0.25) as -> by (apply Qc_is_canon; reflexivity).
  done.
Qed.

Lemma empty_comment_line_witness :
  let row := {| c_id_pessoa := 7; c_nome_pessoa := py "João Silva";
                c_artigo_url := py "https://exemplo/a1";
                c_conteudo := None |} in
  r_final (comment_attribution small_pt ∅ row)
  = (neutro, dec 0.25, Origin.indefinido).
Proof.
  intros row.
  apply (empty_comment_line latin1 small_pt ∅ row eq_refl eq_refl).
Defined.

(** ** Words of a normal form *)

Lemma split_from_app (sep : N) (f : list N) : ∀ (rest cur : list N),
  sep ∉ f →
  split_from sep (f ++ rest) cur = split_from sep rest (cur ++ f).
Proof.
  induction f as [| c f IH]; intros rest cur Hsep; simpl.
  - by rewrite app_nil_r.
  - assert ((c =? sep)%N = false) as ->
      by (apply N.eqb_neq; intros ->; apply Hsep, list_elem_of_here).
    rewrite IH by (intros Hin; by apply Hsep, list_elem_of_further).
    by rewrite <- app_assoc.
Qed.

Lemma split_join (sep : N) (fields : list (list N)) :
  fields ≠ [] → Forall (λ f, sep ∉ f) fields →
  split_on sep (join [sep] fields) = fields.
Proof.
  unfold split_on. induction fields as [| f fields IH]; [ done |].
  intros _ Hall. apply Forall_cons in Hall as [Hf Hall].
  destruct fields as [| g fields].
  - simpl. rewrite <- (app_nil_r f) at 1.
    rewrite split_from_app by done. done.
  - change (join [sep] (f :: g :: fields))
      with (f ++ [sep] ++ join [sep] (g :: fields)).
    rewrite split_from_app by done. simpl.
    rewrite N.eqb_refl. f_equal. by apply IH.
Qed.

(** X26. A normal form splits into its words: when the space counts as
    white space, splitting a non-empty [normalize(text)] at single spaces
    yields no empty field and no field with white space in it, and joining
    the fields with single spaces gives the normal form back. *)
Theorem normalize_words (U : UnicodeData) (text : pystr) :
  isspace 32%N = true → normalize text ≠ [] →
  let fields := split_on 32 (normalize text) in
  (∀ f, f ∈ fields → f ≠ [] ∧ ∀ c, c ∈ f → isspace c = false)
  ∧ join space fields = normalize text.
Proof.
  intros Hsp Hne fields. subst fields. unfold normalize in *.
  set (ws := runs (λ c, negb (isspace c)) (str_lower (_strip_accents text)))
    in *.
  assert (∀ f, f ∈ ws → f ≠ [] ∧ ∀ c, c ∈ f → isspace c = false) as Hws.
  { intros f Hin.
    apply (runs_from_fields (λ c, negb (isspace c)) _ [] f) in Hin
      as [Hf Hall]; [ | done ].
    split; [ done |]. intros c Hc.
    rewrite Forall_forall in Hall. apply negb_true_iff. by apply Hall. }
  assert (split_on 32 (join space ws) = ws) as ->; [ | done ].
  apply split_join; [ by destruct ws |].
  apply Forall_forall. intros f Hin Hsep.
  destruct (Hws f Hin) as [_ Hall]. specialize (Hall _ Hsep). congruence.
Qed.

Lemma normalize_words_witness :
  split_on 32 (normalize (py "  Dr.  João   da SILVA "))
  = map py ["dr."; "joao"; "da"; "silva"]%string
  ∧ join space (split_on 32 (normalize (py "  Dr.  João   da SILVA ")))
    = normalize (py "  Dr.  João   da SILVA ").
Proof.
  split; [ reflexivity |].
  apply (normalize_words latin1 (py "  Dr.  João   da SILVA ")
           eq_refl ltac:(discriminate)).
Defined.

(** ** Tokens of a Latin-1 text *)

Lemma latin1_char_table :
  forallb
    (λ e, forallb
            (λ d, negb (bool_decide (latin1_combining d = 0%N)
                        && word_char (U := latin1) (latin1_lower_char d))
                  || plain_char (latin1_lower_char d))
            (latin1_decomp e))
    (map N.of_nat (seq 0 256)) = true.
Proof. vm_compute. reflexivity. Qed.

(** X27. With the Latin-1 tables, the tokens of a text of the range
    U+0000..U+00FF hold only digits, the letters a..z, the underscore and
    × ß æ ð ÷ ø þ μ: no capital letter and no accented letter survives,
    so the accent-free lower-case words of a lexicon can match. *)
Theorem latin1_tokens_plain (text t : pystr) (c : N) :
  Forall (λ e, (e < 256)%N) text →
  t ∈ tokenize (U := latin1) text → c ∈ t →
  plain_char c = true.
Proof.
  intros Hrange Ht Hc.
  assert (c ∈ concat (tokenize (U := latin1) text)) as Hin.
  { apply list_elem_of_In, in_concat. exists t.
    split; by apply list_elem_of_In. }
  unfold tokenize in Hin. rewrite runs_filter_truthy in Hin.
  unfold runs in Hin. rewrite runs_from_concat in Hin by done.
  simpl app in Hin. apply list_elem_of_filter in Hin as [Hword Hin].
  unfold str_lower, latin1 in Hin.
  apply list_elem_of_fmap in Hin as (d & -> & Hd).
  unfold _strip_accents in Hd. destruct (negb (truthy text));
    [ by inversion Hd |].
  unfold nfkd, combining in Hd.
  apply list_elem_of_filter in Hd as [Hnc Hd].
  apply list_elem_of_In, in_flat_map in Hd as (e & He & Hde).
  apply list_elem_of_In in He, Hde.
  rewrite Forall_forall in Hrange. specialize (Hrange e He).
  pose proof latin1_char_table as Htab.
  rewrite forallb_forall in Htab.
  assert (In e (map N.of_nat (seq 0 256))) as Hseq.
  { apply in_map_iff. exists (N.to_nat e). split; [ apply N2Nat.id |].
    apply in_seq. lia. }
  specialize (Htab e Hseq). rewrite forallb_forall in Htab.
  specialize (Htab d (proj1 (list_elem_of_In _ _) Hde)).
  rewrite (bool_decide_true _ Hnc), Hword in Htab. exact Htab.
Qed.

Lemma latin1_tokens_plain_witness :
  py "acao" ∈ tokenize (py "AÇÃO já!") ∧ plain_char 99 = true.
Proof.
  assert (py "acao" ∈ tokenize (py "AÇÃO já!")) as Hin
    by (apply (bool_decide_eq_true_1 _); reflexivity).
  split; [ exact Hin |].
  apply (latin1_tokens_plain (py "AÇÃO já!") (py "acao") 99);
    [ | exact Hin | ].
  - apply (bool_decide_eq_true_1 _). reflexivity.
  - apply (bool_decide_eq_true_1 _). reflexivity.
Defined.
